(** * The miniscript and descriptor FFI wrappers

    A shallow embedding of [src/cpp/miniscript_wrapper.cpp],
    [src/cpp/descriptor_wrapper.cpp] and the chain-parameter part of
    [src/cpp/stubs.cpp].

    Conventions of the embedding.
    - A nullable pointer is an [option]: [None] is the null pointer.  An
      output parameter [T* out] is an [option T] holding the current content
      of the pointed-to cell; a function returns the content the cell has
      when the call ends, so "nothing was written" is "the same value comes
      back".
    - C enums that cross the ABI ([MiniscriptContext],
      [MiniscriptAvailability], [DescriptorNetwork]) are integers, since the
      code switches on them with a default branch; C++ [enum class] values
      are inductive types.
    - [malloc] and [new] consult an oracle, the [Heap]: the list of outcomes
      of the allocations to come.  Allocation inside the C++ standard
      containers is not modelled, and strings are free of NUL characters.
    - A call into the Bitcoin Core library either returns or throws.  The
      library itself (script/miniscript.h, script/descriptor.h, key_io.h) is
      not part of the wrapper sources; it is a parameter of the development,
      the records [MiniscriptLib] and [DescriptorLib]. *)

From Stdlib Require Import String Ascii List Sorted ZArith Bool Lia.
From Stdlib Require Import DecimalString DecimalN.
Import ListNotations.

Local Open Scope Z_scope.

(** ** Bytes, allocation and exceptions *)

Definition byte := Z.

(** [std::vector<unsigned char>(n, v)] *)
Definition Vector (n : nat) (v : byte) : list byte := repeat v n.

(** [v.resize(n, fill)] *)
Definition resize (v : list byte) (n : nat) (fill : byte) : list byte :=
  firstn n v ++ repeat fill (n - length v).

Definition Heap := list bool.

Definition M (A : Type) : Type := Heap -> A * Heap.

Definition ret {A : Type} (a : A) : M A := fun h => (a, h).

Definition bind {A B : Type} (m : M A) (k : A -> M B) : M B :=
  fun h => let (a, h') := m h in k a h'.

Notation "x <- m ;; k" := (bind m (fun x => k))
  (at level 61, m at next level, right associativity).

(** One allocation: the next outcome of the oracle; an exhausted oracle
    grants every request. *)
Definition malloc : M bool :=
  fun h => match h with
           | [] => (true, [])
           | ok :: h' => (ok, h')
           end.

(** A heap on which no allocation fails. *)
Definition heap_ok (h : Heap) : bool := forallb (fun ok => ok) h.

Inductive exception : Type :=
| std_exception (what : string)
| other_exception.

Inductive outcome (A : Type) : Type :=
| Returns (a : A)
| Throws (e : exception).

Arguments Returns {A} a.
Arguments Throws {A} e.

(** [what()] of the [std::bad_alloc] a failed [new] throws. *)
Definition bad_alloc_what : string := "std::bad_alloc".

(** [static char* strdup_safe(const char* str)] *)
Definition strdup_safe (str : option string) : M (option string) :=
  match str with
  | None => ret None
  | Some s =>
      ok <- malloc ;;
      ret (if ok then Some s else None)
  end.

(** ** Contexts and availability *)

(** [miniscript::MiniscriptContext] *)
Inductive MsContext : Type := P2WSH | TAPSCRIPT.

Definition MsContext_eqb (a b : MsContext) : bool :=
  match a, b with
  | P2WSH, P2WSH | TAPSCRIPT, TAPSCRIPT => true
  | _, _ => false
  end.

(** [miniscript::Availability] *)
Inductive Availability : Type := NO | YES | MAYBE.

(** The C enum [MiniscriptContext]. *)
Definition MINISCRIPT_CONTEXT_WSH : Z := 0.
Definition MINISCRIPT_CONTEXT_TAPSCRIPT : Z := 1.

(** The C enum [MiniscriptAvailability]. *)
Definition MINISCRIPT_AVAILABILITY_NO : Z := 0.
Definition MINISCRIPT_AVAILABILITY_YES : Z := 1.
Definition MINISCRIPT_AVAILABILITY_MAYBE : Z := 2.

(** The [switch (ctx)] of [miniscript_from_string] and
    [miniscript_from_script]; [None] is the default branch. *)
Definition ms_ctx_of (ctx : Z) : option MsContext :=
  if ctx =? MINISCRIPT_CONTEXT_WSH then Some P2WSH
  else if ctx =? MINISCRIPT_CONTEXT_TAPSCRIPT then Some TAPSCRIPT
  else None.

(** ** Keys *)

Record StringKey : Type := { str : string }.

(** The operations the library asks of a key context (the [Ctx] template
    parameter of [FromString], [ToString], [ToScript], [FromScript]). *)
Module Ctx.

Record KeyContext : Type := {
  MsContext : MsContext;
  FromString : string -> option StringKey;
  ToString : StringKey -> option string;
  KeyCompare : StringKey -> StringKey -> bool;
  ToPKBytes : StringKey -> list byte;
  ToPKHBytes : StringKey -> list byte;
  FromPKBytes : list byte -> option StringKey;
  FromPKHBytes : list byte -> option StringKey
}.

End Ctx.

(** [a.str < b.str] on [std::string]: lexicographic on the character
    codes. *)
Fixpoint string_ltb (a b : string) : bool :=
  match a, b with
  | _, EmptyString => false
  | EmptyString, String _ _ => true
  | String x a', String y b' =>
      if (nat_of_ascii x <? nat_of_ascii y)%nat then true
      else if (nat_of_ascii y <? nat_of_ascii x)%nat then false
      else string_ltb a' b'
  end.

Module StringKeyContext.

Definition ToPKBytes (ms_ctx : MsContext) (key : StringKey) : list byte :=
  if MsContext_eqb ms_ctx TAPSCRIPT then Vector 32 0 else Vector 33 0.

Definition ToPKHBytes (key : StringKey) : list byte := Vector 20 0.

Definition FromPKBytes (bytes : list byte) : option StringKey :=
  Some {| str := "decoded_key" |}.

Definition FromPKHBytes (bytes : list byte) : option StringKey :=
  Some {| str := "decoded_pkh_key" |}.

Definition make (ms_ctx : MsContext) : Ctx.KeyContext :=
  {| Ctx.MsContext := ms_ctx;
     Ctx.FromString := fun s => Some {| str := s |};
     Ctx.ToString := fun key => Some (str key);
     Ctx.KeyCompare := fun a b => string_ltb (str a) (str b);
     Ctx.ToPKBytes := ToPKBytes ms_ctx;
     Ctx.ToPKHBytes := ToPKHBytes;
     Ctx.FromPKBytes := FromPKBytes;
     Ctx.FromPKHBytes := FromPKHBytes |}.

End StringKeyContext.

(** ** The satisfier callbacks *)

(** What a [SignCallback] or [SatHashCallback] hands back: its return value
    and what it stored through its two output pointers, the buffer
    ([None] for a null pointer) and the length.  The buffer holds at least
    as many bytes as the length says. *)
Record CallbackReply : Type := {
  reply_avail : Z;
  reply_out : option (list byte);
  reply_len : nat
}.

(** [SatisfierCallbacks]; a null function pointer is [None].  The opaque
    [rust_context] is what the callbacks close over. *)
Record SatisfierCallbacks : Type := {
  sign_callback : option (list byte -> CallbackReply);
  check_after_callback : option (Z -> bool);
  check_older_callback : option (Z -> bool);
  sat_sha256_callback : option (list byte -> CallbackReply);
  sat_ripemd160_callback : option (list byte -> CallbackReply);
  sat_hash256_callback : option (list byte -> CallbackReply);
  sat_hash160_callback : option (list byte -> CallbackReply)
}.

(** The operations the library asks of a satisfier (template parameter of
    [Node::Satisfy]): those of a key context, and the capability queries.
    [Sign] and the hash queries receive the vector they may overwrite and
    return it. *)
Module Sat.

Record Satisfier : Type := {
  key_ctx : Ctx.KeyContext;
  Sign : StringKey -> list byte -> Availability * list byte;
  CheckAfter : Z -> bool;
  CheckOlder : Z -> bool;
  SatSHA256 : list byte -> list byte -> Availability * list byte;
  SatRIPEMD160 : list byte -> list byte -> Availability * list byte;
  SatHASH256 : list byte -> list byte -> Availability * list byte;
  SatHASH160 : list byte -> list byte -> Availability * list byte
}.

End Sat.

(** [v.assign(out, out + len)] *)
Definition assign (out : list byte) (len : nat) : list byte := firstn len out.

(** [out && len > 0] *)
Definition has_bytes (r : CallbackReply) : bool :=
  match reply_out r with
  | Some _ => (0 <? reply_len r)%nat
  | None => false
  end.

Definition reply_bytes (r : CallbackReply) : list byte :=
  match reply_out r with
  | Some out => assign out (reply_len r)
  | None => []
  end.

Module CallbackSatisfier.

Section WithLibc.

(** [sscanf(s, "%02x", &byte)] of the C library, on the NUL-terminated
    string [s]: [Some v] when it returns 1 and stores [v], [None] when it
    returns anything else. *)
Variable sscanf_02x : string -> option Z.

Variable callbacks : option SatisfierCallbacks.
Variable ms_ctx : MsContext.

(** The placeholder both early exits of [ToPKBytes] return. *)
Definition placeholder : list byte :=
  if MsContext_eqb ms_ctx TAPSCRIPT then Vector 32 0 else Vector 33 0.

(** The loop [for (i = 0; i < key.str.size(); i += 2)] of [ToPKBytes], on
    the rest of the string from position [i]; [None] is the return from
    inside the loop. *)
Fixpoint hex_loop (rest : string) : option (list byte) :=
  match rest with
  | EmptyString => Some []
  | String _ rest1 =>
      match sscanf_02x rest with
      | None => None
      | Some b =>
          match rest1 with
          | EmptyString => Some [b mod 256]
          | String _ rest2 =>
              match hex_loop rest2 with
              | None => None
              | Some result => Some (b mod 256 :: result)
              end
          end
      end
  end.

Definition ToPKBytes (key : StringKey) : list byte :=
  if (2 <=? String.length (str key))%nat then
    match hex_loop (str key) with
    | Some result => result
    | None => placeholder
    end
  else placeholder.

Definition ToPKHBytes (key : StringKey) : list byte := Vector 20 0.

Definition FromPKBytes (bytes : list byte) : option StringKey :=
  Some {| str := "decoded_key" |}.

Definition FromPKHBytes (bytes : list byte) : option StringKey :=
  Some {| str := "decoded_pkh_key" |}.

Definition Sign (key : StringKey) (sig : list byte)
  : Availability * list byte :=
  match callbacks with
  | None => (NO, sig)
  | Some cb =>
      match sign_callback cb with
      | None => (NO, sig)
      | Some call =>
          let key_bytes := ToPKBytes key in
          let r := call key_bytes in
          if (reply_avail r =? MINISCRIPT_AVAILABILITY_YES) && has_bytes r
          then (YES, reply_bytes r)
          else if reply_avail r =? MINISCRIPT_AVAILABILITY_MAYBE then
            if has_bytes r then (MAYBE, reply_bytes r)
            else (MAYBE, resize sig 72 48)
          else (NO, sig)
      end
  end.

Definition CheckAfter (value : Z) : bool :=
  match callbacks with
  | None => false
  | Some cb =>
      match check_after_callback cb with
      | None => false
      | Some call => call value
      end
  end.

Definition CheckOlder (value : Z) : bool :=
  match callbacks with
  | None => false
  | Some cb =>
      match check_older_callback cb with
      | None => false
      | Some call => call value
      end
  end.

(** The body the four hash queries share, up to the callback they read. *)
Definition sat_hash
  (field : SatisfierCallbacks -> option (list byte -> CallbackReply))
  (hash preimage : list byte) : Availability * list byte :=
  match callbacks with
  | None => (NO, preimage)
  | Some cb =>
      match field cb with
      | None => (NO, preimage)
      | Some call =>
          let r := call hash in
          if (reply_avail r =? MINISCRIPT_AVAILABILITY_YES) && has_bytes r
          then (YES, reply_bytes r)
          else if reply_avail r =? MINISCRIPT_AVAILABILITY_MAYBE
          then (MAYBE, preimage)
          else (NO, preimage)
      end
  end.

Definition SatSHA256 := sat_hash sat_sha256_callback.
Definition SatRIPEMD160 := sat_hash sat_ripemd160_callback.
Definition SatHASH256 := sat_hash sat_hash256_callback.
Definition SatHASH160 := sat_hash sat_hash160_callback.

Definition make : Sat.Satisfier :=
  {| Sat.key_ctx :=
       {| Ctx.MsContext := ms_ctx;
          Ctx.FromString := fun s => Some {| str := s |};
          Ctx.ToString := fun key => Some (str key);
          Ctx.KeyCompare := fun a b => string_ltb (str a) (str b);
          Ctx.ToPKBytes := ToPKBytes;
          Ctx.ToPKHBytes := ToPKHBytes;
          Ctx.FromPKBytes := FromPKBytes;
          Ctx.FromPKHBytes := FromPKHBytes |};
     Sat.Sign := Sign;
     Sat.CheckAfter := CheckAfter;
     Sat.CheckOlder := CheckOlder;
     Sat.SatSHA256 := SatSHA256;
     Sat.SatRIPEMD160 := SatRIPEMD160;
     Sat.SatHASH256 := SatHASH256;
     Sat.SatHASH160 := SatHASH160 |}.

End WithLibc.

End CallbackSatisfier.

(** ** The library interface *)

(** Modelled from the spec: the library's [Type] (the set of property bits of
    a node, spec section 4.2), its literal [""_mst] and its operator [<<]
    ("has all properties of"); script/miniscript.h is not among the sources.
    One bit per property, in the order the spec lists them. *)
Definition MsType := Z.

Definition mst_bit (c : ascii) : Z :=
  match index 0 (String c EmptyString) "BVKWzondufesmxk" with
  | Some i => Z.shiftl 1 (Z.of_nat i)
  | None => 0
  end.

Fixpoint mst (s : string) : MsType :=
  match s with
  | EmptyString => 0
  | String c s' => Z.lor (mst_bit c) (mst s')
  end.

Definition includes (t x : MsType) : bool := Z.land t x =? x.

Notation "t << x" := (includes t x) (at level 35, no associativity).

Module miniscript.

(** What the wrappers call of script/miniscript.h, instantiated at
    [Key = StringKey].  A null [NodeRef] or raw node pointer is [None], an
    empty [std::optional] is [None].  [Satisfy] returns its availability
    together with the content of its [stack] argument, which is empty on
    entry. *)
Record Lib : Type := {
  Node : Type;
  FromString : string -> Ctx.KeyContext -> outcome (option Node);
  FromScript : list byte -> Ctx.KeyContext -> outcome (option Node);
  ToString : Node -> Ctx.KeyContext -> outcome (option string);
  ToScript : Node -> Ctx.KeyContext -> outcome (list byte);
  IsValid : Node -> bool;
  GetType : Node -> MsType;
  GetWitnessSize : Node -> option Z;
  IsNonMalleable : Node -> bool;
  NeedsSignature : Node -> bool;
  IsValidTopLevel : Node -> bool;
  CheckOpsLimit : Node -> bool;
  CheckStackSize : Node -> bool;
  CheckDuplicateKey : Node -> bool;
  GetOps : Node -> option Z;
  GetStackSize : Node -> option Z;
  GetExecStackSize : Node -> option Z;
  ScriptSize : Node -> Z;
  FindInsaneSub : Node -> outcome (option Node);
  ValidSatisfactions : Node -> bool;
  GetStaticOps : Node -> Z;
  Satisfy : Node -> Sat.Satisfier -> bool ->
            outcome (Availability * list (list byte))
}.

(** Modelled from the spec: [Node::IsSane], which the wrapper only calls.
    Spec section 4.2: "is_sane() -- valid, non-malleable (m), no duplicate
    keys across the whole tree, and free of timelock-unit mixing", the last
    being the property bit k. *)
Definition IsSane (L : Lib) (n : Node L) : bool :=
  IsValid L n && IsNonMalleable L n && CheckDuplicateKey L n
  && (GetType L n << mst "k").

End miniscript.

(** ** The results of the exported functions *)

Module MiniscriptResult.

Record t : Type := { success : bool; error_message : option string }.

End MiniscriptResult.

Module SatisfactionResult.

(** [stack] is the array of element pointers, each null or a buffer. *)
Record t : Type := {
  availability : Z;
  stack : option (list (option (list byte)));
  stack_sizes : option (list nat);
  stack_count : nat;
  error_message : option string
}.

End SatisfactionResult.

(** ** miniscript_wrapper.cpp *)

Section Wrapper.

Variable L : miniscript.Lib.
Variable sscanf_02x : string -> option Z.

Record MiniscriptNode : Type := {
  node : option (miniscript.Node L);
  ctx : MsContext
}.

(** [new MiniscriptNode(std::move(n), c)]: [None] when the allocation
    fails, which throws [std::bad_alloc]. *)
Definition new_MiniscriptNode (n : miniscript.Node L) (c : MsContext)
  : M (option MiniscriptNode) :=
  ok <- malloc ;;
  ret (if ok then Some {| node := Some n; ctx := c |} else None).

Definition failure (msg : option string) : MiniscriptResult.t :=
  {| MiniscriptResult.success := false;
     MiniscriptResult.error_message := msg |}.

(** What [miniscript_from_string] and [miniscript_from_script] do with the
    node the library parsed, inside their [try] block. *)
Definition store_parsed (parsed : outcome (option (miniscript.Node L)))
  (ms_ctx : MsContext) (failed invalid unknown : string)
  : M (MiniscriptResult.t * option (option MiniscriptNode)) :=
  match parsed with
  | Returns None =>
      msg <- strdup_safe (Some failed) ;;
      ret (failure msg, Some None)
  | Returns (Some n) =>
      if negb (miniscript.IsValid L n) then
        msg <- strdup_safe (Some invalid) ;;
        ret (failure msg, Some None)
      else
        p <- new_MiniscriptNode n ms_ctx ;;
        match p with
        | Some p =>
            ret ({| MiniscriptResult.success := true;
                    MiniscriptResult.error_message := None |},
                 Some (Some p))
        | None =>
            msg <- strdup_safe (Some bad_alloc_what) ;;
            ret (failure msg, Some None)
        end
  | Throws (std_exception what) =>
      msg <- strdup_safe (Some what) ;;
      ret (failure msg, Some None)
  | Throws other_exception =>
      msg <- strdup_safe (Some unknown) ;;
      ret (failure msg, Some None)
  end.

Definition miniscript_from_string (input : option string) (ctx : Z)
  (out_node : option (option MiniscriptNode))
  : M (MiniscriptResult.t * option (option MiniscriptNode)) :=
  match input, out_node with
  | Some input, Some _ =>
      match ms_ctx_of ctx with
      | None =>
          msg <- strdup_safe (Some "Invalid context"%string) ;;
          ret (failure msg, Some None)
      | Some ms_ctx =>
          let key_ctx := StringKeyContext.make ms_ctx in
          store_parsed (miniscript.FromString L input key_ctx) ms_ctx
            "Failed to parse miniscript"
            "Parsed miniscript is not valid"
            "Unknown error during parsing"
      end
  | _, _ =>
      msg <- strdup_safe (Some "Invalid arguments: null pointer"%string) ;;
      ret (failure msg, out_node)
  end.

Definition miniscript_to_string (nd : option MiniscriptNode)
  : M (option string) :=
  match nd with
  | Some {| node := Some n; ctx := c |} =>
      let key_ctx := StringKeyContext.make c in
      match miniscript.ToString L n key_ctx with
      | Returns (Some s) => strdup_safe (Some s)
      | Returns None => ret None
      | Throws _ => ret None
      end
  | _ => ret None
  end.

Definition miniscript_to_script (nd : option MiniscriptNode)
  (out_script : option (option (list byte))) (out_len : option nat)
  : M (bool * option (option (list byte)) * option nat) :=
  match nd, out_script, out_len with
  | Some {| node := Some n; ctx := c |}, Some _, Some _ =>
      let key_ctx := StringKeyContext.make c in
      match miniscript.ToScript L n key_ctx with
      | Returns script =>
          ok <- malloc ;;
          if ok then ret (true, Some (Some script), Some (length script))
          else ret (false, Some None, Some (length script))
      | Throws _ => ret (false, out_script, out_len)
      end
  | _, _, _ => ret (false, out_script, out_len)
  end.

(** The accessors that return what one [const] method of the node returns:
    [false] on a null node, the method's value otherwise. *)
Definition query (f : miniscript.Node L -> bool)
  (nd : option MiniscriptNode) : bool :=
  match nd with
  | Some {| node := Some n |} => f n
  | _ => false
  end.

Definition miniscript_is_valid := query (miniscript.IsValid L).
Definition miniscript_is_sane := query (miniscript.IsSane L).

Definition type_str (typ : MsType) : string :=
  ((if typ << mst "B" then "B" else "") ++
   (if typ << mst "V" then "V" else "") ++
   (if typ << mst "K" then "K" else "") ++
   (if typ << mst "W" then "W" else "") ++
   (if typ << mst "z" then "z" else "") ++
   (if typ << mst "o" then "o" else "") ++
   (if typ << mst "n" then "n" else "") ++
   (if typ << mst "d" then "d" else "") ++
   (if typ << mst "u" then "u" else "") ++
   (if typ << mst "e" then "e" else "") ++
   (if typ << mst "f" then "f" else "") ++
   (if typ << mst "s" then "s" else "") ++
   (if typ << mst "m" then "m" else "") ++
   (if typ << mst "x" then "x" else "") ++
   (if typ << mst "k" then "k" else ""))%string.

Definition miniscript_get_type (nd : option MiniscriptNode)
  : M (option string) :=
  match nd with
  | Some {| node := Some n |} =>
      strdup_safe (Some (type_str (miniscript.GetType L n)))
  | _ => ret None
  end.

(** The accessors that store a number through [out] when the node has one:
    [if (!node || !node->node || !out) return false;] then the store. *)
Definition fetch {A : Type} (f : miniscript.Node L -> option A)
  (nd : option MiniscriptNode) (out : option A) : bool * option A :=
  match nd, out with
  | Some {| node := Some n |}, Some _ =>
      match f n with
      | Some v => (true, Some v)
      | None => (false, out)
      end
  | _, _ => (false, out)
  end.

Definition miniscript_max_satisfaction_size :=
  fetch (miniscript.GetWitnessSize L).

Definition miniscript_is_non_malleable := query (miniscript.IsNonMalleable L).
Definition miniscript_needs_signature := query (miniscript.NeedsSignature L).

Definition miniscript_has_timelock_mix (nd : option MiniscriptNode) : bool :=
  match nd with
  | Some {| node := Some n |} => negb (miniscript.GetType L n << mst "k")
  | _ => false
  end.

Definition miniscript_is_valid_top_level :=
  query (miniscript.IsValidTopLevel L).
Definition miniscript_check_ops_limit := query (miniscript.CheckOpsLimit L).
Definition miniscript_check_stack_size := query (miniscript.CheckStackSize L).
Definition miniscript_check_duplicate_key :=
  query (miniscript.CheckDuplicateKey L).

Definition miniscript_get_ops := fetch (miniscript.GetOps L).
Definition miniscript_get_stack_size := fetch (miniscript.GetStackSize L).
Definition miniscript_get_exec_stack_size :=
  fetch (miniscript.GetExecStackSize L).
Definition miniscript_get_script_size :=
  fetch (fun n => Some (miniscript.ScriptSize L n)).

Definition miniscript_from_script (script : option (list byte)) (ctx : Z)
  (out_node : option (option MiniscriptNode))
  : M (MiniscriptResult.t * option (option MiniscriptNode)) :=
  match script, out_node with
  | Some cscript, Some _ =>
      match ms_ctx_of ctx with
      | None =>
          msg <- strdup_safe (Some "Invalid context"%string) ;;
          ret (failure msg, Some None)
      | Some ms_ctx =>
          let key_ctx := StringKeyContext.make ms_ctx in
          store_parsed (miniscript.FromScript L cscript key_ctx) ms_ctx
            "Failed to parse script as miniscript"
            "Parsed miniscript is not valid"
            "Unknown error during script parsing"
      end
  | _, _ =>
      msg <- strdup_safe (Some "Invalid arguments: null pointer"%string) ;;
      ret (failure msg, out_node)
  end.

Definition miniscript_find_insane_sub (nd : option MiniscriptNode)
  : option MiniscriptNode :=
  match nd with
  | Some {| node := Some n |} =>
      match miniscript.FindInsaneSub L n with
      | Returns None => None
      | Returns (Some insane_sub) => None
      | Throws _ => None
      end
  | _ => None
  end.

Definition miniscript_valid_satisfactions :=
  query (miniscript.ValidSatisfactions L).
Definition miniscript_get_static_ops :=
  fetch (fun n => Some (miniscript.GetStaticOps L n)).

(** [MiniscriptAvailability] of a [miniscript::Availability]. *)
Definition availability_of (avail : Availability) : Z :=
  match avail with
  | YES => MINISCRIPT_AVAILABILITY_YES
  | MAYBE => MINISCRIPT_AVAILABILITY_MAYBE
  | NO => MINISCRIPT_AVAILABILITY_NO
  end.

(** The loop copying the elements: an empty element becomes a null pointer,
    another one a buffer of its own, left null when its [malloc] fails. *)
Fixpoint copy_elements (stack : list (list byte))
  : M (list (option (list byte))) :=
  match stack with
  | [] => ret []
  | e :: rest =>
      p <- match e with
           | [] => ret None
           | _ :: _ => ok <- malloc ;; ret (if ok then Some e else None)
           end ;;
      ps <- copy_elements rest ;;
      ret (p :: ps)
  end.

Definition empty_result (msg : option string) : SatisfactionResult.t :=
  {| SatisfactionResult.availability := MINISCRIPT_AVAILABILITY_NO;
     SatisfactionResult.stack := None;
     SatisfactionResult.stack_sizes := None;
     SatisfactionResult.stack_count := 0;
     SatisfactionResult.error_message := msg |}.

Definition miniscript_satisfy (nd : option MiniscriptNode)
  (callbacks : option SatisfierCallbacks) (nonmalleable : bool)
  : M SatisfactionResult.t :=
  match nd with
  | Some {| node := Some n; ctx := c |} =>
      match callbacks with
      | None =>
          msg <- strdup_safe (Some "Invalid callbacks: null pointer"%string) ;;
          ret (empty_result msg)
      | Some _ =>
          let satisfier := CallbackSatisfier.make sscanf_02x callbacks c in
          match miniscript.Satisfy L n satisfier nonmalleable with
          | Returns (avail, stack) =>
              match stack with
              | [] =>
                  ret {| SatisfactionResult.availability :=
                           availability_of avail;
                         SatisfactionResult.stack := None;
                         SatisfactionResult.stack_sizes := None;
                         SatisfactionResult.stack_count := 0;
                         SatisfactionResult.error_message := None |}
              | _ :: _ =>
                  stack_ok <- malloc ;;
                  sizes_ok <- malloc ;;
                  if negb stack_ok || negb sizes_ok then
                    msg <- strdup_safe
                             (Some "Memory allocation failed"%string) ;;
                    ret {| SatisfactionResult.availability :=
                             availability_of avail;
                           SatisfactionResult.stack := None;
                           SatisfactionResult.stack_sizes := None;
                           SatisfactionResult.stack_count := 0;
                           SatisfactionResult.error_message := msg |}
                  else
                    elements <- copy_elements stack ;;
                    ret {| SatisfactionResult.availability :=
                             availability_of avail;
                           SatisfactionResult.stack := Some elements;
                           SatisfactionResult.stack_sizes :=
                             Some (map (@length byte) stack);
                           SatisfactionResult.stack_count := length stack;
                           SatisfactionResult.error_message := None |}
              end
          | Throws (std_exception what) =>
              msg <- strdup_safe (Some what) ;;
              ret (empty_result msg)
          | Throws other_exception =>
              msg <- strdup_safe
                       (Some "Unknown error during satisfaction"%string) ;;
              ret (empty_result msg)
          end
      end
  | _ =>
      msg <- strdup_safe (Some "Invalid node: null pointer"%string) ;;
      ret (empty_result msg)
  end.

Definition miniscript_satisfaction_result_free
  (result : option SatisfactionResult.t) : option SatisfactionResult.t :=
  match result with
  | None => None
  | Some r =>
      Some {| SatisfactionResult.availability :=
                SatisfactionResult.availability r;
              SatisfactionResult.stack := None;
              SatisfactionResult.stack_sizes := None;
              SatisfactionResult.stack_count := 0;
              SatisfactionResult.error_message := None |}
  end.

Definition miniscript_version : string := "0.3.0".

End Wrapper.

(** ** A model of the C library's sscanf *)

Module Libc.

(** [isspace] in the C locale. *)
Definition isspace (c : ascii) : bool :=
  let n := nat_of_ascii c in
  ((n =? 32) || ((9 <=? n) && (n <=? 13)))%nat.

(** The value of a hexadecimal digit. *)
Definition xdigit (c : ascii) : option Z :=
  let n := Z.of_nat (nat_of_ascii c) in
  if (48 <=? n) && (n <=? 57) then Some (n - 48)
  else if (97 <=? n) && (n <=? 102) then Some (n - 97 + 10)
  else if (65 <=? n) && (n <=? 70) then Some (n - 65 + 10)
  else None.

Fixpoint skip_spaces (s : string) : string :=
  match s with
  | String c s' => if isspace c then skip_spaces s' else s
  | EmptyString => s
  end.

(** [sscanf(s, "%02x", &v) == 1] as the C standard describes it and glibc
    implements it: white space is skipped, then at most two characters are
    read as an optionally signed hexadecimal integer, a [0x] prefix
    included (its two characters exhaust the width and leave the value 0);
    the value is stored as an [unsigned int]. *)
Definition sscanf_02x (s : string) : option Z :=
  match skip_spaces s with
  | EmptyString => None
  | String c1 rest =>
      let second :=
        match rest with
        | String c2 _ => xdigit c2
        | EmptyString => None
        end in
      if (Ascii.eqb c1 "+")%char then second
      else if (Ascii.eqb c1 "-")%char then
        match second with
        | Some d => Some ((- d) mod 2 ^ 32)
        | None => None
        end
      else
        match xdigit c1, second with
        | Some d1, Some d2 => Some (16 * d1 + d2)
        | Some d1, None => Some d1
        | None, _ => None
        end
  end.

End Libc.

(** The width of a serialized public key in a context (spec section 3:
    "key byte-width (33 vs. 32)"). *)
Definition key_width (c : MsContext) : nat :=
  match c with
  | P2WSH => 33
  | TAPSCRIPT => 32
  end.

(** ** The library on the policy pk(K) *)

Module PkLib.

(** Modelled from the spec: the miniscript library, which is not among the
    sources, restricted to the trees of the single-key policy [pk(K)] of the
    spec's concrete scenario 1 (section 8): text form [pk(KEY)], script
    [<key> OP_CHECKSIG], satisfied by the signature the satisfier gives for
    [K] (section 4.4: leaves query the provider directly, and availability
    composes).  [Satisfy] returns the witness stack of an Available
    candidate, the signature the provider gave for [K], and is Unsatisfiable,
    availability NO with an empty stack, when the provider gave none or only
    an estimate (section 4.4: candidates built from estimated leaves must
    never be returned as a final witness; the top-level call fails with
    Unsatisfiable if the root node has no Available candidate); the resource
    figures are those of the script [<key> OP_CHECKSIG]. *)
Record Node : Type := { key : StringKey; m_script_ctx : MsContext }.

Definition OP_CHECKSIG : byte := 172.

(** The key between ["pk("] and the closing parenthesis that ends the
    text. *)
Definition parse_pk (s : string) : option string :=
  if prefix "pk(" s then
    let body := substring 3 (String.length s - 3) s in
    match index 0 ")" body with
    | Some i =>
        if ((1 <=? i) && (i + 1 =? String.length body))%nat
        then Some (substring 0 i body)
        else None
    | None => None
    end
  else None.

Definition FromString (s : string) (kc : Ctx.KeyContext)
  : outcome (option Node) :=
  Returns
    match parse_pk s with
    | Some k =>
        match Ctx.FromString kc k with
        | Some key => Some {| key := key; m_script_ctx := Ctx.MsContext kc |}
        | None => None
        end
    | None => None
    end.

Definition ToString (n : Node) (kc : Ctx.KeyContext)
  : outcome (option string) :=
  Returns
    match Ctx.ToString kc (key n) with
    | Some k => Some ("pk(" ++ k ++ ")")%string
    | None => None
    end.

Definition ToScript (n : Node) (kc : Ctx.KeyContext) : outcome (list byte) :=
  let pk := Ctx.ToPKBytes kc (key n) in
  Returns (Z.of_nat (length pk) :: pk ++ [OP_CHECKSIG]).

Definition FromScript (script : list byte) (kc : Ctx.KeyContext)
  : outcome (option Node) :=
  Returns
    match script with
    | len :: rest =>
        let w := key_width (Ctx.MsContext kc) in
        if (len =? Z.of_nat w) && (length rest =? w + 1)%nat
           && (nth w rest 0 =? OP_CHECKSIG)
        then
          match Ctx.FromPKBytes kc (firstn w rest) with
          | Some key =>
              Some {| key := key; m_script_ctx := Ctx.MsContext kc |}
          | None => None
          end
        else None
    | [] => None
    end.

Definition GetType (n : Node) : MsType := mst "Bonduesmk".

Definition Satisfy (n : Node) (satisfier : Sat.Satisfier)
  (nonmalleable : bool) : outcome (Availability * list (list byte)) :=
  Returns
    match Sat.Sign satisfier (key n) [] with
    | (YES, sig) => (YES, [sig])
    | _ => (NO, [])
    end.

Definition lib : miniscript.Lib :=
  {| miniscript.Node := Node;
     miniscript.FromString := FromString;
     miniscript.FromScript := FromScript;
     miniscript.ToString := ToString;
     miniscript.ToScript := ToScript;
     miniscript.IsValid := fun _ => true;
     miniscript.GetType := GetType;
     miniscript.GetWitnessSize := fun n =>
       Some match m_script_ctx n with P2WSH => 73 | TAPSCRIPT => 66 end;
     miniscript.IsNonMalleable := fun n => GetType n << mst "m";
     miniscript.NeedsSignature := fun n => GetType n << mst "s";
     miniscript.IsValidTopLevel := fun _ => true;
     miniscript.CheckOpsLimit := fun _ => true;
     miniscript.CheckStackSize := fun _ => true;
     miniscript.CheckDuplicateKey := fun _ => true;
     miniscript.GetOps := fun _ => Some 1;
     miniscript.GetStackSize := fun _ => Some 1;
     miniscript.GetExecStackSize := fun _ => Some 2;
     miniscript.ScriptSize := fun n =>
       Z.of_nat (key_width (m_script_ctx n)) + 2;
     miniscript.FindInsaneSub := fun _ => Returns None;
     miniscript.ValidSatisfactions := fun _ => true;
     miniscript.GetStaticOps := fun _ => 1;
     miniscript.Satisfy := Satisfy |}.

End PkLib.

(** ** stubs.cpp: chain parameters *)

Inductive Base58Type : Type :=
| PUBKEY_ADDRESS
| SCRIPT_ADDRESS
| SECRET_KEY
| EXT_PUBLIC_KEY
| EXT_SECRET_KEY.

Record CChainParams : Type := {
  bech32_hrp : string;
  base58Prefixes : Base58Type -> list byte
}.

Definition MainnetChainParams : CChainParams :=
  {| bech32_hrp := "bc";
     base58Prefixes := fun t =>
       match t with
       | PUBKEY_ADDRESS => Vector 1 0
       | SCRIPT_ADDRESS => Vector 1 5
       | SECRET_KEY => Vector 1 128
       | EXT_PUBLIC_KEY => [0x04; 0x88; 0xB2; 0x1E]
       | EXT_SECRET_KEY => [0x04; 0x88; 0xAD; 0xE4]
       end |}.

Definition TestnetChainParams : CChainParams :=
  {| bech32_hrp := "tb";
     base58Prefixes := fun t =>
       match t with
       | PUBKEY_ADDRESS => Vector 1 111
       | SCRIPT_ADDRESS => Vector 1 196
       | SECRET_KEY => Vector 1 239
       | EXT_PUBLIC_KEY => [0x04; 0x35; 0x87; 0xCF]
       | EXT_SECRET_KEY => [0x04; 0x35; 0x83; 0x94]
       end |}.

Definition RegtestChainParams : CChainParams :=
  {| bech32_hrp := "bcrt";
     base58Prefixes := fun t =>
       match t with
       | PUBKEY_ADDRESS => Vector 1 111
       | SCRIPT_ADDRESS => Vector 1 196
       | SECRET_KEY => Vector 1 239
       | EXT_PUBLIC_KEY => [0x04; 0x35; 0x87; 0xCF]
       | EXT_SECRET_KEY => [0x04; 0x35; 0x83; 0x94]
       end |}.

Definition g_mainnet_params := MainnetChainParams.
Definition g_testnet_params := TestnetChainParams.
Definition g_regtest_params := RegtestChainParams.

(** The process-wide state: the object [g_current_params] points to. *)
Record Globals : Type := { g_current_params : CChainParams }.

(** The state a process starts in. *)
Definition initial_globals : Globals :=
  {| g_current_params := g_testnet_params |}.

Definition Params (g : Globals) : CChainParams := g_current_params g.

Definition SelectParams (network : Z) (g : Globals) : Globals :=
  if network =? 0 then {| g_current_params := g_mainnet_params |}
  else if (network =? 1) || (network =? 2)
  then {| g_current_params := g_testnet_params |}
  else if network =? 3 then {| g_current_params := g_regtest_params |}
  else {| g_current_params := g_mainnet_params |}.

(** The C enum [DescriptorNetwork]. *)
Definition DESCRIPTOR_NETWORK_MAINNET : Z := 0.
Definition DESCRIPTOR_NETWORK_TESTNET : Z := 1.
Definition DESCRIPTOR_NETWORK_SIGNET : Z := 2.
Definition DESCRIPTOR_NETWORK_REGTEST : Z := 3.

Definition descriptor_select_params (network : Z) (g : Globals) : Globals :=
  SelectParams network g.

(** ** descriptor_wrapper.cpp *)

Module core.

(** What [descriptor_parse_with_network] and [descriptor_get_address] call
    of Bitcoin Core.  [Parse] and [EncodeDestination] read the chain
    parameters through the global [Params()]; here they receive the value
    [Params()] has at the time of the call. *)
Record Lib : Type := {
  Descriptor : Type;
  FlatSigningProvider : Type;
  CTxDestination : Type;
  OutputType : Type;
  Parse : CChainParams -> string ->
          outcome (list Descriptor * FlatSigningProvider * string);
  Expand : Descriptor -> Z -> FlatSigningProvider ->
           outcome (bool * list (list byte));
  GetOutputType : Descriptor -> option OutputType;
  ExtractDestination : list byte -> bool * CTxDestination;
  IsPayToWitnessScriptHash : list byte -> bool;
  IsWitnessProgram : list byte -> option (Z * list byte);
  WitnessV0ScriptHash : list byte -> CTxDestination;
  EncodeDestination : CChainParams -> CTxDestination -> outcome string
}.

End core.

Module DescriptorResult.

Record t : Type := { success : bool; error_message : option string }.

End DescriptorResult.

Section Descriptors.

Variable D : core.Lib.

Record DescriptorNode : Type := {
  descriptor : option (core.Descriptor D);
  provider : core.FlatSigningProvider D
}.

Definition descriptor_failure (msg : option string) : DescriptorResult.t :=
  {| DescriptorResult.success := false;
     DescriptorResult.error_message := msg |}.

(** Returns the result, the content of [*out_node] and the process-wide
    state the call leaves behind. *)
Definition descriptor_parse_with_network (g : Globals)
  (descriptor_str : option string) (network : Z)
  (out_node : option (option DescriptorNode))
  : M (DescriptorResult.t * option (option DescriptorNode) * Globals) :=
  match descriptor_str, out_node with
  | Some desc_str, Some _ =>
      let g := SelectParams network g in
      match core.Parse D (Params g) desc_str with
      | Returns ([], _, error) =>
          msg <- strdup_safe
                   (Some (if (String.length error =? 0)%nat
                          then "Failed to parse descriptor"%string
                          else error)) ;;
          ret (descriptor_failure msg, Some None, g)
      | Returns (first :: _, provider, _) =>
          ok <- malloc ;;
          if ok then
            ret ({| DescriptorResult.success := true;
                    DescriptorResult.error_message := None |},
                 Some (Some {| descriptor := Some first;
                               provider := provider |}), g)
          else
            msg <- strdup_safe (Some bad_alloc_what) ;;
            ret (descriptor_failure msg, Some None, g)
      | Throws (std_exception what) =>
          msg <- strdup_safe (Some what) ;;
          ret (descriptor_failure msg, Some None, g)
      | Throws other_exception =>
          msg <- strdup_safe
                   (Some "Unknown error during descriptor parsing"%string) ;;
          ret (descriptor_failure msg, Some None, g)
      end
  | _, _ =>
      msg <- strdup_safe (Some "Invalid arguments: null pointer"%string) ;;
      ret (descriptor_failure msg, out_node, g)
  end.

(** The destination [descriptor_get_address] encodes for a script. *)
Definition destination_of (script : list byte)
  : option (core.CTxDestination D) :=
  let (extracted, dest) := core.ExtractDestination D script in
  if extracted then Some dest
  else if core.IsPayToWitnessScriptHash D script then
    match core.IsWitnessProgram D script with
    | Some (version, witprog) =>
        if (version =? 0) && (length witprog =? 32)%nat
        then Some (core.WitnessV0ScriptHash D witprog)
        else None
    | None => None
    end
  else None.

Definition descriptor_get_address (g : Globals)
  (nd : option DescriptorNode) (pos : Z) (network : Z)
  : M (option string) :=
  match nd with
  | Some {| descriptor := Some d; provider := prov |} =>
      match core.Expand D d pos prov with
      | Returns (true, script :: _) =>
          match core.GetOutputType D d with
          | None => ret None
          | Some _ =>
              match destination_of script with
              | None => ret None
              | Some dest =>
                  match core.EncodeDestination D (Params g) dest with
                  | Returns address => strdup_safe (Some address)
                  | Throws _ => ret None
                  end
              end
          end
      | Returns (true, []) => ret None
      | Returns (false, _) => ret None
      | Throws _ => ret None
      end
  | _ => ret None
  end.

End Descriptors.

(** ** Test data and derived notions used in the statements *)

(** What the caller sees after [miniscript_from_string] or
    [miniscript_from_script] ran on heap [h] with non-null arguments: on
    success a node whose tree is valid, otherwise a null [*out_node],
    together with a message whenever no allocation failed. *)
Definition valid_or_nothing (L : miniscript.Lib) (h : Heap)
  (r : MiniscriptResult.t * option (option (MiniscriptNode L))) : Prop :=
  if MiniscriptResult.success (fst r) then
    exists p, snd r = Some (Some p) /\ miniscript_is_valid L (Some p) = true
  else
    snd r = Some None /\
    (heap_ok h = true -> MiniscriptResult.error_message (fst r) <> None).

(** The node of [pk(A)] in the segwit context. *)
Definition pk_A : MiniscriptNode PkLib.lib :=
  Build_MiniscriptNode PkLib.lib
    (Some {| PkLib.key := {| str := "A" |}; PkLib.m_script_ctx := P2WSH |})
    P2WSH.

(** The array of element pointers [miniscript_satisfy] builds from a stack
    when every allocation succeeds. *)
Definition copied (stack : list (list byte)) : list (option (list byte)) :=
  map (fun e => match e with [] => None | _ :: _ => Some e end) stack.

(** A provider that only estimates: asked to sign, it answers MAYBE and
    hands back no bytes; it knows no preimage and no timelock. *)
Definition estimating_callbacks : SatisfierCallbacks :=
  {| sign_callback := Some (fun _ =>
       {| reply_avail := MINISCRIPT_AVAILABILITY_MAYBE;
          reply_out := None;
          reply_len := 0 |});
     check_after_callback := None;
     check_older_callback := None;
     sat_sha256_callback := None;
     sat_ripemd160_callback := None;
     sat_hash256_callback := None;
     sat_hash160_callback := None |}.

(** A provider that signs: it answers YES with the three bytes 1, 2, 3. *)
Definition signing_callbacks : SatisfierCallbacks :=
  {| sign_callback := Some (fun _ =>
       {| reply_avail := MINISCRIPT_AVAILABILITY_YES;
          reply_out := Some [1; 2; 3];
          reply_len := 3 |});
     check_after_callback := None;
     check_older_callback := None;
     sat_sha256_callback := None;
     sat_ripemd160_callback := None;
     sat_hash256_callback := None;
     sat_hash160_callback := None |}.

(** A compressed public key in hexadecimal, 66 characters. *)
Definition compressed_key_hex : string :=
  "02c6047f9441ed7d6d3045406e95c07cd85c778e4b8cef3ca7abac09b95c709ee5".

(** A node argument the accessors refuse: a null pointer, or a node whose
    inner tree is null. *)
Definition null_node {L : miniscript.Lib} (nd : option (MiniscriptNode L))
  : bool :=
  match nd with
  | Some {| node := Some _ |} => false
  | _ => true
  end.

(** An error-bearing [SatisfactionResult]: availability NO, no stack. *)
Definition bears_error (r : SatisfactionResult.t) : Prop :=
  r = empty_result (SatisfactionResult.error_message r).

(** The Bech32 encoding of BIP 173, which [EncodeDestination] applies to a
    witness destination: the human-readable part of the chain parameters,
    the separator, the data in groups of five bits and a checksum of six
    groups. *)
Module Bech32.

Definition charset : string := "qpzry9x8gf2tvdw0s3jn54khce6mua7l".

(** The generator of the checksum, each constant with the bit that
    selects it. *)
Definition generator : list (Z * Z) :=
  [(0, 0x3b6a57b2); (1, 0x26508e6d); (2, 0x1ea119fa); (3, 0x3d4233dd);
   (4, 0x2a1462b3)].

Definition polymod_step (chk v : Z) : Z :=
  let top := Z.shiftr chk 25 in
  fold_left
    (fun c g => if Z.testbit top (fst g) then Z.lxor c (snd g) else c)
    generator (Z.lxor (Z.shiftl (Z.land chk 0x1ffffff) 5) v).

Definition polymod (values : list Z) : Z := fold_left polymod_step values 1.

Definition hrp_expand (hrp : string) : list Z :=
  let codes :=
    map (fun c => Z.of_nat (nat_of_ascii c)) (list_ascii_of_string hrp) in
  map (fun c => Z.shiftr c 5) codes ++ 0 :: map (fun c => Z.land c 31) codes.

Definition create_checksum (hrp : string) (data : list Z) : list Z :=
  let pm := Z.lxor (polymod (hrp_expand hrp ++ data ++ repeat 0 6%nat)) 1 in
  map (fun i => Z.land (Z.shiftr pm (5 * (5 - i))) 31) [0; 1; 2; 3; 4; 5].

Definition symbol (d : Z) : ascii :=
  match get (Z.to_nat d) charset with
  | Some c => c
  | None => zero
  end.

Definition encode (hrp : string) (data : list Z) : string :=
  (hrp ++ "1"
   ++ string_of_list_ascii (map symbol (data ++ create_checksum hrp data)))
  %string.

(** The bits of a byte, the most significant first. *)
Definition bits_of_byte (b : byte) : list bool :=
  map (Z.testbit b) [7; 6; 5; 4; 3; 2; 1; 0].

Definition value_of_bits (bits : list bool) : Z :=
  fold_left (fun v (b : bool) => 2 * v + (if b then 1 else 0)) bits 0.

(** Groups of five bits; the last group is padded with zero bits. *)
Fixpoint groups_of_5 (bits : list bool) : list Z :=
  match bits with
  | [] => []
  | b4 :: b3 :: b2 :: b1 :: b0 :: rest =>
      value_of_bits [b4; b3; b2; b1; b0] :: groups_of_5 rest
  | short => [value_of_bits (short ++ repeat false (5 - length short))]
  end.

(** [ConvertBits<8, 5, true>] *)
Definition convert_bits (bytes : list byte) : list Z :=
  groups_of_5 (flat_map bits_of_byte bytes).

(** The address of a version 0 witness program. *)
Definition segwit_v0_address (hrp : string) (program : list byte) : string :=
  encode hrp (0 :: convert_bits program).

End Bech32.

(** A stand-in for the Bitcoin Core side of the descriptor wrapper, which
    is not among the sources, on one descriptor that Bitcoin Core accepts
    under every chain parameters: pay to the witness public key hash of the
    compressed key of the secp256k1 generator.  The descriptor expands to
    the script [OP_0 <HASH160 of the key>], whose destination is that key
    hash, and the address of a destination is its Bech32 encoding under the
    parameters the encoder was given (the address of BIP 173's test vectors
    for mainnet and testnet).  Any other text is refused: the stand-in
    knows no other descriptor. *)
Module ProbeCore.

Definition descriptor_text : string :=
  "wpkh(0279be667ef9dcbbac55a06295ce870b07029bfcdb2dce28d959f2815b16f81798)".

(** HASH160 of the key, 751e76e8199196d454941c45d1b3a323f1433bd6. *)
Definition key_hash : list byte :=
  [117; 30; 118; 232; 25; 145; 150; 212; 84; 148;
   28; 69; 209; 179; 163; 35; 241; 67; 59; 214].

Definition p2wpkh_script : list byte := 0 :: 20 :: key_hash.

(** A version 0 witness program of 20 or of 32 bytes. *)
Definition witness_v0_program (script : list byte) : option (list byte) :=
  match script with
  | 0 :: len :: program =>
      if (Z.of_nat (length program) =? len) && ((len =? 20) || (len =? 32))
      then Some program
      else None
  | _ => None
  end.

Definition lib : core.Lib :=
  {| core.Descriptor := unit;
     core.FlatSigningProvider := unit;
     core.CTxDestination := list byte;
     core.OutputType := unit;
     core.Parse := fun _ text =>
       if String.eqb text descriptor_text
       then Returns ([tt], tt, EmptyString)
       else Returns ([], tt, "unknown descriptor"%string);
     core.Expand := fun _ _ _ => Returns (true, [p2wpkh_script]);
     core.GetOutputType := fun _ => Some tt;
     core.ExtractDestination := fun script =>
       match witness_v0_program script with
       | Some program => (true, program)
       | None => (false, [])
       end;
     core.IsPayToWitnessScriptHash := fun script =>
       match witness_v0_program script with
       | Some program => (length program =? 32)%nat
       | None => false
       end;
     core.IsWitnessProgram := fun script =>
       match witness_v0_program script with
       | Some program => Some (0, program)
       | None => None
       end;
     core.WitnessV0ScriptHash := fun witprog => witprog;
     core.EncodeDestination := fun params dest =>
       Returns (Bech32.segwit_v0_address (bech32_hrp params) dest) |}.

(** The node [descriptor_parse_with_network] stores for this library. *)
Definition parsed_node : DescriptorNode lib :=
  Build_DescriptorNode lib (Some tt) tt.

End ProbeCore.

(** ** stubs.cpp: hexadecimal helpers *)

(** [signed char HexDigit(char c)] *)
Definition HexDigit (c : ascii) : Z :=
  let n := Z.of_nat (nat_of_ascii c) in
  if (48 <=? n) && (n <=? 57) then n - 48
  else if (97 <=? n) && (n <=? 102) then n - 97 + 10
  else if (65 <=? n) && (n <=? 70) then n - 65 + 10
  else -1.

Definition hexmap : string := "0123456789abcdef".

(** [hexmap[i]] *)
Definition hexmap_at (i : Z) : ascii :=
  match get (Z.to_nat i) hexmap with
  | Some ch => ch
  | None => zero
  end.

(** [std::string HexStr(std::span<const unsigned char> s)] *)
Fixpoint HexStr (s : list byte) : string :=
  match s with
  | [] => EmptyString
  | c :: s' =>
      String (hexmap_at (Z.shiftr c 4))
        (String (hexmap_at (Z.land c 15)) (HexStr s'))
  end.

(** A provider that knows one preimage: asked for a SHA256 preimage, it
    answers YES with the two bytes 9, 9. *)
Definition preimage_callbacks : SatisfierCallbacks :=
  {| sign_callback := None;
     check_after_callback := None;
     check_older_callback := None;
     sat_sha256_callback := Some (fun _ =>
       {| reply_avail := MINISCRIPT_AVAILABILITY_YES;
          reply_out := Some [9; 9];
          reply_len := 2 |});
     sat_ripemd160_callback := None;
     sat_hash256_callback := None;
     sat_hash160_callback := None |}.

(** The value of the C enum [MiniscriptContext] that names a context. *)
Definition context_of (c : MsContext) : Z :=
  match c with
  | P2WSH => MINISCRIPT_CONTEXT_WSH
  | TAPSCRIPT => MINISCRIPT_CONTEXT_TAPSCRIPT
  end.

(** ** The two round trips, across the wrappers and inside the library *)

Section RoundTrips.

Variable L : miniscript.Lib.

(** The node the parsers store for a tree. *)
Definition node_of (n : miniscript.Node L) (c : MsContext)
  : MiniscriptNode L :=
  Build_MiniscriptNode L (Some n) c.

(** The script round trip of a tree across the exported functions, on a
    heap that grants every allocation: [miniscript_to_script] stores a
    script, [miniscript_from_script] parses it in the same context, and
    [miniscript_to_script] stores the same script for the parsed node. *)
Definition wrapper_script_round_trip (n : miniscript.Node L) (c : MsContext)
  : Prop :=
  exists script reparsed,
    fst (miniscript_to_script L (Some (node_of n c)) (Some None)
           (Some 0%nat) [])
    = (true, Some (Some script), Some (length script)) /\
    fst (miniscript_from_script L (Some script) (context_of c)
           (Some None) [])
    = ({| MiniscriptResult.success := true;
          MiniscriptResult.error_message := None |},
       Some (Some reparsed)) /\
    fst (miniscript_to_script L (Some reparsed) (Some None) (Some 0%nat) [])
    = (true, Some (Some script), Some (length script)).

(** The same round trip inside the library, under the string key context:
    [ToScript], [FromScript] to a valid tree, and [ToScript] again. *)
Definition library_script_round_trip (n : miniscript.Node L) (c : MsContext)
  : Prop :=
  let key_ctx := StringKeyContext.make c in
  exists script n',
    miniscript.ToScript L n key_ctx = Returns script /\
    miniscript.FromScript L script key_ctx = Returns (Some n') /\
    miniscript.IsValid L n' = true /\
    miniscript.ToScript L n' key_ctx = Returns script.

(** The text round trip of a text across the exported functions: whenever
    [miniscript_from_string] stores a node for the text,
    [miniscript_to_string] prints that node and [miniscript_from_string]
    stores an equal node for what was printed. *)
Definition wrapper_text_round_trip (s : string) (c : MsContext) : Prop :=
  forall parsed,
    fst (miniscript_from_string L (Some s) (context_of c) (Some None) [])
    = ({| MiniscriptResult.success := true;
          MiniscriptResult.error_message := None |},
       Some (Some parsed)) ->
    exists s',
      fst (miniscript_to_string L (Some parsed) []) = Some s' /\
      fst (miniscript_from_string L (Some s') (context_of c) (Some None) [])
      = ({| MiniscriptResult.success := true;
            MiniscriptResult.error_message := None |},
         Some (Some parsed)).

(** The same round trip inside the library, under the string key context,
    for the texts that parse to a valid tree. *)
Definition library_text_round_trip (s : string) (c : MsContext) : Prop :=
  let key_ctx := StringKeyContext.make c in
  forall n,
    miniscript.FromString L s key_ctx = Returns (Some n) ->
    miniscript.IsValid L n = true ->
    exists s',
      miniscript.ToString L n key_ctx = Returns (Some s') /\
      miniscript.FromString L s' key_ctx = Returns (Some n).

End RoundTrips.

(** What [ToPKBytes] needs of [sscanf]: two hexadecimal digits at the start
    of a string are read as one byte. *)
Definition reads_hex_pairs (sscanf_02x : string -> option Z) : Prop :=
  forall d1 d2 rest,
    0 <= d1 < 16 -> 0 <= d2 < 16 ->
    sscanf_02x (String (hexmap_at d1) (String (hexmap_at d2) rest))
    = Some (16 * d1 + d2).

(** [s.c_str() + i], for [i] up to the size of [s]. *)
Fixpoint c_str_from (i : nat) (s : string) : string :=
  match i, s with
  | O, _ => s
  | S i', String _ s' => c_str_from i' s'
  | S _, EmptyString => EmptyString
  end.

(** A key on which [ToPKBytes] gives up reading hexadecimal: its text is
    shorter than two characters, or [sscanf] fails at one of the even
    offsets the loop visits. *)
Definition opaque_key (sscanf_02x : string -> option Z) (key : StringKey)
  : Prop :=
  (String.length (str key) < 2)%nat \/
  exists i,
    (2 * i < String.length (str key))%nat /\
    sscanf_02x (c_str_from (2 * i) (str key)) = None.

(** The shape a caller of [miniscript_satisfy] relies on to walk and free a
    result: both arrays are null and the count is 0, or both have
    [stack_count] entries, there is at least one, no message is set, and
    every non-null element is a non-empty buffer of the recorded size. *)
Definition well_shaped (r : SatisfactionResult.t) : Prop :=
  match SatisfactionResult.stack r, SatisfactionResult.stack_sizes r with
  | None, None => SatisfactionResult.stack_count r = 0%nat
  | Some elements, Some sizes =>
      length elements = SatisfactionResult.stack_count r /\
      length sizes = SatisfactionResult.stack_count r /\
      (0 < SatisfactionResult.stack_count r)%nat /\
      SatisfactionResult.error_message r = None /\
      Forall2 (fun p size =>
                 match p with
                 | Some e => e <> [] /\ length e = size
                 | None => True
                 end) elements sizes
  | _, _ => False
  end.

(** The letters [miniscript_get_type] can print, in its order. *)
Definition type_letters : list ascii :=
  list_ascii_of_string "BVKWzonduefsmxk".

(** ** descriptor_wrapper.cpp: the other exported functions *)

Module descriptors.

(** What the remaining functions of the descriptor wrapper call of Bitcoin
    Core, beside [core.Lib].  A [CPubKey] is known by its bytes ([data()],
    [size()]) and by the order [operator<] that [std::set<CPubKey>] sorts
    with.  [GetPubKeys] gives the keys the descriptor inserts into the set
    it is handed, in the order it inserts them, and [expanded_pubkeys] the
    values of [out_provider.pubkeys] after [Expand], in the order of the
    map. *)
Record Lib : Type := {
  base : core.Lib;
  CPubKey : Type;
  pubkey_bytes : CPubKey -> list byte;
  pubkey_lt : CPubKey -> CPubKey -> bool;
  IsRange : core.Descriptor base -> bool;
  IsSolvable : core.Descriptor base -> bool;
  ToString : core.Descriptor base -> outcome string;
  GetPubKeys : core.Descriptor base -> list CPubKey;
  expanded_pubkeys : core.Descriptor base -> Z ->
                     core.FlatSigningProvider base -> list CPubKey;
  ScriptSize : core.Descriptor base -> option Z;
  MaxSatisfactionWeight : core.Descriptor base -> bool -> option Z;
  GetDescriptorChecksum : string -> outcome string
}.

End descriptors.

(** The value of a pointer variable the caller can read back: null, a live
    allocation with its content, or the address of an allocation that was
    freed. *)
Inductive pointer (A : Type) : Type :=
| null_pointer
| live (content : A)
| dangling.

Arguments null_pointer {A}.
Arguments live {A} content.
Arguments dangling {A}.

Section MoreDescriptors.

Variable D : descriptors.Lib.

(** The node type of [descriptor_parse_with_network], for this library. *)
Definition DNode : Type := DescriptorNode (descriptors.base D).

(** The accessors that return what one [const] method of the descriptor
    returns, [false] on a null node. *)
Definition descriptor_query
  (f : core.Descriptor (descriptors.base D) -> bool) (nd : option DNode)
  : bool :=
  match nd with
  | Some {| descriptor := Some d |} => f d
  | _ => false
  end.

Definition descriptor_is_range := descriptor_query (descriptors.IsRange D).
Definition descriptor_is_solvable :=
  descriptor_query (descriptors.IsSolvable D).

Definition descriptor_to_string (nd : option DNode) : M (option string) :=
  match nd with
  | Some {| descriptor := Some d |} =>
      match descriptors.ToString D d with
      | Returns s => strdup_safe (Some s)
      | Throws _ => ret None
      end
  | _ => ret None
  end.

Definition descriptor_expand (nd : option DNode) (pos : Z)
  (out_script : option (option (list byte))) (out_len : option nat)
  : M (bool * option (option (list byte)) * option nat) :=
  match nd, out_script, out_len with
  | Some {| descriptor := Some d; provider := prov |}, Some _, Some _ =>
      match core.Expand (descriptors.base D) d pos prov with
      | Returns (true, script :: _) =>
          ok <- malloc ;;
          if ok then ret (true, Some (Some script), Some (length script))
          else ret (false, Some None, Some (length script))
      | Returns (true, []) => ret (false, out_script, out_len)
      | Returns (false, _) => ret (false, out_script, out_len)
      | Throws _ => ret (false, out_script, out_len)
      end
  | _, _, _ => ret (false, out_script, out_len)
  end.

(** [std::set<CPubKey>::insert]: the set is the list of its elements in
    ascending order; an element equivalent to the new one keeps its
    place. *)
Fixpoint set_insert (x : descriptors.CPubKey D)
  (s : list (descriptors.CPubKey D)) : list (descriptors.CPubKey D) :=
  match s with
  | [] => [x]
  | y :: s' =>
      if descriptors.pubkey_lt D x y then x :: s
      else if descriptors.pubkey_lt D y x then y :: set_insert x s'
      else s
  end.

(** The set [descriptor_get_pubkeys] iterates over: the keys of
    [GetPubKeys], then those of the expanded provider. *)
Definition collected_pubkeys (d : core.Descriptor (descriptors.base D))
  (pos : Z) (prov : core.FlatSigningProvider (descriptors.base D))
  : list (descriptors.CPubKey D) :=
  fold_left (fun s x => set_insert x s)
    (descriptors.GetPubKeys D d ++ descriptors.expanded_pubkeys D d pos prov)
    [].

(** The loop filling the two arrays: every element gets a buffer of its
    own, left null when its [malloc] fails. *)
Fixpoint copy_pubkeys (keys : list (descriptors.CPubKey D))
  : M (list (option (list byte))) :=
  match keys with
  | [] => ret []
  | k :: rest =>
      ok <- malloc ;;
      ps <- copy_pubkeys rest ;;
      ret ((if ok then Some (descriptors.pubkey_bytes D k) else None) :: ps)
  end.

Definition descriptor_get_pubkeys (nd : option DNode) (pos : Z)
  (out_pubkeys : option (pointer (list (option (list byte)))))
  (out_lens : option (pointer (list nat))) (out_count : option nat)
  : M (bool * option (pointer (list (option (list byte))))
       * option (pointer (list nat)) * option nat) :=
  match nd, out_pubkeys, out_lens, out_count with
  | Some {| descriptor := Some d; provider := prov |},
    Some _, Some _, Some _ =>
      match core.Expand (descriptors.base D) d pos prov with
      | Returns (true, _) =>
          match collected_pubkeys d pos prov with
          | [] => ret (true, Some null_pointer, Some null_pointer, Some 0%nat)
          | (_ :: _) as pubkeys =>
              keys_ok <- malloc ;;
              lens_ok <- malloc ;;
              if negb keys_ok || negb lens_ok then
                ret (false,
                     Some (if keys_ok then dangling else null_pointer),
                     Some (if lens_ok then dangling else null_pointer),
                     Some (length pubkeys))
              else
                elements <- copy_pubkeys pubkeys ;;
                ret (true, Some (live elements),
                     Some (live (map (fun k =>
                                        length (descriptors.pubkey_bytes D k))
                                   pubkeys)),
                     Some (length pubkeys))
          end
      | Returns (false, _) => ret (false, out_pubkeys, out_lens, out_count)
      | Throws _ => ret (false, out_pubkeys, out_lens, out_count)
      end
  | _, _, _, _ => ret (false, out_pubkeys, out_lens, out_count)
  end.

(** The accessors that store a number through [out] when the descriptor
    has one. *)
Definition descriptor_fetch
  (f : core.Descriptor (descriptors.base D) -> option Z)
  (nd : option DNode) (out : option Z) : bool * option Z :=
  match nd, out with
  | Some {| descriptor := Some d |}, Some _ =>
      match f d with
      | Some v => (true, Some v)
      | None => (false, out)
      end
  | _, _ => (false, out)
  end.

Definition descriptor_get_script_size :=
  descriptor_fetch (descriptors.ScriptSize D).

Definition descriptor_get_max_satisfaction_weight (nd : option DNode)
  (use_max_sig : bool) (out_weight : option Z) : bool * option Z :=
  descriptor_fetch
    (fun d => descriptors.MaxSatisfactionWeight D d use_max_sig)
    nd out_weight.

Definition descriptor_get_checksum (descriptor_str : option string)
  : M (option string) :=
  match descriptor_str with
  | None => ret None
  | Some s =>
      match descriptors.GetDescriptorChecksum D s with
      | Returns result =>
          if (String.length result =? 0)%nat then ret None
          else strdup_safe (Some result)
      | Throws _ => ret None
      end
  end.

Definition descriptor_version : string := "0.1.0".

End MoreDescriptors.

(** What [std::set] asks of the order of its elements, here with equal
    elements the only equivalent ones, as for [CPubKey]. *)
Definition strict_total_order {A : Type} (lt : A -> A -> bool) : Prop :=
  (forall a, lt a a = false) /\
  (forall a b c, lt a b = true -> lt b c = true -> lt a c = true) /\
  (forall a b, lt a b = false -> lt b a = false -> a = b).

(** A stand-in for the rest of the Bitcoin Core side, over [ProbeCore], in
    which a public key is one number, ordered as numbers are, so that
    duplicates and order show: the descriptor has the keys 5, 3, 5 and its
    expansion adds the keys 4, 3. *)
Module ProbeKeys.

Definition lib : descriptors.Lib :=
  {| descriptors.base := ProbeCore.lib;
     descriptors.CPubKey := Z;
     descriptors.pubkey_bytes := fun k => [k];
     descriptors.pubkey_lt := Z.ltb;
     descriptors.IsRange := fun _ => false;
     descriptors.IsSolvable := fun _ => true;
     descriptors.ToString := fun _ =>
       Returns (ProbeCore.descriptor_text ++ "#ucxz0gak")%string;
     descriptors.GetPubKeys := fun _ => [5; 3; 5];
     descriptors.expanded_pubkeys := fun _ _ _ => [4; 3];
     descriptors.ScriptSize := fun _ => Some 22;
     descriptors.MaxSatisfactionWeight := fun _ _ => None;
     descriptors.GetDescriptorChecksum := fun _ => Returns EmptyString |}.

End ProbeKeys.

(** A descriptor argument the accessors refuse: a null pointer, or a node
    whose descriptor is null. *)
Definition null_descriptor {D : core.Lib} (nd : option (DescriptorNode D))
  : bool :=
  match nd with
  | Some {| descriptor := Some _ |} => false
  | _ => true
  end.

(** ** stubs.cpp: memory_cleanse and FormatHDKeypath *)

(** The loop [while (len--) *p++ = 0;] of [memory_cleanse], on the bytes
    from [p] on. *)
Fixpoint cleanse_loop (len : nat) (mem : list byte) : list byte :=
  match len, mem with
  | S len', _ :: mem' => 0 :: cleanse_loop len' mem'
  | _, _ => mem
  end.

(** [void memory_cleanse(void* ptr, size_t len)]: the memory [ptr] points
    to, after the call. *)
Definition memory_cleanse (ptr : option (list byte)) (len : nat)
  : option (list byte) :=
  match ptr with
  | Some mem => Some (cleanse_loop len mem)
  | None => None
  end.

(** [std::to_string] of an unsigned number: its decimal digits. *)
Definition to_string (n : Z) : string :=
  NilEmpty.string_of_uint (N.to_uint (Z.to_N n)).

(** What one turn of the loop of [FormatHDKeypath] appends. *)
Definition format_index (apostrophe : bool) (index : Z) : string :=
  String.append "/"
    (if negb (Z.land index 0x80000000 =? 0) then
       String.append (to_string (Z.land index 0x7FFFFFFF))
         (if apostrophe then "'" else "h")
     else to_string index).

(** [std::string FormatHDKeypath(const std::vector<uint32_t>& path,
    bool apostrophe)] *)
Definition FormatHDKeypath (path : list Z) (apostrophe : bool) : string :=
  fold_left
    (fun result index => String.append result (format_index apostrophe index))
    path "m"%string.

(** The values of a [uint32_t]. *)
Definition uint32 (n : Z) : Prop := 0 <= n < 2 ^ 32.

(** Decimal digits, for the text [std::to_string] produces. *)
Definition is_digit (c : ascii) : bool :=
  let n := nat_of_ascii c in ((48 <=? n) && (n <=? 57))%nat.

Fixpoint all_digits (s : string) : bool :=
  match s with
  | EmptyString => true
  | String c s' => is_digit c && all_digits s'
  end.

(** A text that does not go on with a digit. *)
Definition no_digit_first (s : string) : Prop :=
  match s with
  | EmptyString => True
  | String c _ => is_digit c = false
  end.

(** * Properties *)

(** ** Allocation *)

Ltac run_monad := cbv beta delta [bind ret strdup_safe] in *; cbn beta iota.

Lemma malloc_heap_ok (h : Heap) :
  heap_ok h = true -> fst (malloc h) = true /\ heap_ok (snd (malloc h)) = true.
Proof.
  destruct h as [|ok h]; cbn; [auto|].
  intros H. apply andb_true_iff in H. tauto.
Qed.

(** ** Parsing: a valid tree or nothing *)

Section ParseProperties.

Variable L : miniscript.Lib.

Lemma store_parsed_valid_or_nothing parsed ms_ctx failed invalid unknown h :
  valid_or_nothing L h
    (fst (store_parsed L parsed ms_ctx failed invalid unknown h)).
Proof.
  unfold valid_or_nothing, store_parsed, new_MiniscriptNode, failure.
  destruct parsed as [[n|]|[what|]];
    [destruct (miniscript.IsValid L n) eqn:Hvalid; cbn [negb]|..];
    run_monad; unfold malloc;
    destruct h as [|[] h]; cbn;
    try (split; [reflexivity|]; intros Hok; discriminate).
  1, 2: eexists; split; [reflexivity|]; exact Hvalid.
  destruct h as [|[] h]; cbn; (split; [reflexivity|]; discriminate).
Qed.

End ParseProperties.

(** C1.  Whatever the text or script, the context and the previous content
    of [*out_node], when [miniscript_from_string] or [miniscript_from_script]
    reports success the node stored in [*out_node] is valid
    ([miniscript_is_valid] holds of it), and when it reports failure
    [*out_node] is null, [success] is false and, unless an allocation
    failed, an error message is set. *)
Theorem parsers_return_valid_tree_or_nothing
  (L : miniscript.Lib) (input : string) (script : list byte) (ctx : Z)
  (old : option (MiniscriptNode L)) (h : Heap) :
  valid_or_nothing L h
    (fst (miniscript_from_string L (Some input) ctx (Some old) h)) /\
  valid_or_nothing L h
    (fst (miniscript_from_script L (Some script) ctx (Some old) h)).
Proof.
  unfold miniscript_from_string, miniscript_from_script.
  destruct (ms_ctx_of ctx) as [ms_ctx|].
  - split; apply store_parsed_valid_or_nothing.
  - unfold valid_or_nothing, failure. run_monad. unfold malloc.
    destruct h as [|[] h]; cbn; repeat split; congruence.
Qed.

Lemma parsers_return_valid_tree_or_nothing_witness :
  snd (fst (miniscript_from_string PkLib.lib (Some "pk(A"%string)
              MINISCRIPT_CONTEXT_WSH (Some None) [])) = Some None /\
  MiniscriptResult.error_message
    (fst (fst (miniscript_from_string PkLib.lib (Some "pk(A"%string)
                 MINISCRIPT_CONTEXT_WSH (Some None) []))) <> None.
Proof.
  destruct (parsers_return_valid_tree_or_nothing PkLib.lib "pk(A" []
              MINISCRIPT_CONTEXT_WSH None []) as [[Hnull Hmsg] _].
  split; [exact Hnull|]. apply Hmsg. reflexivity.
Defined.

(** Both outcomes occur: the policy of scenario 1 parses, a truncated text
    does not, and an unknown context is refused. *)
Example from_string_pk_succeeds :
  fst (miniscript_from_string PkLib.lib (Some "pk(A)"%string)
         MINISCRIPT_CONTEXT_WSH (Some None) []) =
  ({| MiniscriptResult.success := true;
      MiniscriptResult.error_message := None |},
   Some (Some pk_A)).
Proof. reflexivity. Qed.

Example from_string_truncated_fails :
  fst (miniscript_from_string PkLib.lib (Some "pk(A"%string)
         MINISCRIPT_CONTEXT_WSH (Some None) []) =
  ({| MiniscriptResult.success := false;
      MiniscriptResult.error_message :=
        Some "Failed to parse miniscript"%string |},
   Some None).
Proof. reflexivity. Qed.

Example from_string_unknown_context_fails :
  fst (miniscript_from_string PkLib.lib (Some "pk(A)"%string) 7
         (Some None) []) =
  ({| MiniscriptResult.success := false;
      MiniscriptResult.error_message := Some "Invalid context"%string |},
   Some None).
Proof. reflexivity. Qed.

(** ** Sanity *)

(** C5.  A node for which [miniscript_is_sane] answers true is valid,
    non-malleable and free of duplicate keys, and
    [miniscript_has_timelock_mix] answers false for it. *)
Theorem sane_is_valid_nonmalleable_unique_unmixed
  (L : miniscript.Lib) (nd : option (MiniscriptNode L)) :
  miniscript_is_sane L nd = true ->
  miniscript_is_valid L nd = true /\
  miniscript_is_non_malleable L nd = true /\
  miniscript_check_duplicate_key L nd = true /\
  miniscript_has_timelock_mix L nd = false.
Proof.
  unfold miniscript_is_sane, miniscript_is_valid,
    miniscript_is_non_malleable, miniscript_check_duplicate_key,
    miniscript_has_timelock_mix, query, miniscript.IsSane.
  destruct nd as [[[n|] c]|]; try discriminate.
  intros H.
  repeat (apply andb_true_iff in H; destruct H as [H ?]).
  repeat split; try assumption.
  apply negb_false_iff. assumption.
Qed.

Lemma sane_is_valid_nonmalleable_unique_unmixed_witness :
  miniscript_is_sane PkLib.lib (Some pk_A) = true /\
  miniscript_is_valid PkLib.lib (Some pk_A) = true /\
  miniscript_is_non_malleable PkLib.lib (Some pk_A) = true /\
  miniscript_check_duplicate_key PkLib.lib (Some pk_A) = true /\
  miniscript_has_timelock_mix PkLib.lib (Some pk_A) = false.
Proof.
  split; [reflexivity|].
  apply (sane_is_valid_nonmalleable_unique_unmixed PkLib.lib (Some pk_A)).
  reflexivity.
Defined.

(** ** The insane sub-expression is never surfaced *)

(** C9.  [miniscript_find_insane_sub] returns null for every node, whatever
    [FindInsaneSub] finds: a located sub-expression is dropped. *)
Theorem find_insane_sub_returns_null
  (L : miniscript.Lib) (nd : option (MiniscriptNode L)) :
  miniscript_find_insane_sub L nd = None.
Proof.
  unfold miniscript_find_insane_sub.
  destruct nd as [[[n|] c]|]; try reflexivity.
  destruct (miniscript.FindInsaneSub L n) as [[sub|]|e]; reflexivity.
Qed.

(** ** Satisfaction results *)

Lemma copy_elements_heap_ok (stack : list (list byte)) (h : Heap) :
  heap_ok h = true ->
  fst (copy_elements stack h) = copied stack /\
  heap_ok (snd (copy_elements stack h)) = true.
Proof.
  revert h. induction stack as [|e rest IH]; intros h Hok; cbn.
  - auto.
  - run_monad. destruct e as [|b e].
    + specialize (IH h Hok). destruct (copy_elements rest h) as [ps h'].
      cbn in *. destruct IH as [-> ?]. auto.
    + destruct (malloc_heap_ok h Hok) as [Hfst Hsnd].
      destruct (malloc h) as [ok h1]. cbn in Hfst, Hsnd. subst ok.
      specialize (IH h1 Hsnd). destruct (copy_elements rest h1) as [ps h'].
      cbn in *. destruct IH as [-> ?]. auto.
Qed.

(** X22.  [miniscript_satisfy] adds no decision of its own to the
    library's: when [Satisfy] returns and no allocation fails, the result
    reports the availability [Satisfy] returned and carries a copy of
    whatever stack [Satisfy] left, without regard to the availability.  It
    carries no stack (null, count 0) exactly when that stack is empty, and
    otherwise one pointer per element with its size.  Whether a stack can
    come with an availability other than YES is therefore decided by
    [Satisfy] alone. *)
Theorem satisfy_copies_stack_for_every_availability
  (L : miniscript.Lib) (sscanf_02x : string -> option Z)
  (n : miniscript.Node L) (c : MsContext) (cb : SatisfierCallbacks)
  (nonmalleable : bool) (avail : Availability) (stack : list (list byte))
  (h : Heap) :
  miniscript.Satisfy L n (CallbackSatisfier.make sscanf_02x (Some cb) c)
    nonmalleable = Returns (avail, stack) ->
  heap_ok h = true ->
  fst (miniscript_satisfy L sscanf_02x
         (Some (Build_MiniscriptNode L (Some n) c)) (Some cb) nonmalleable h)
  = {| SatisfactionResult.availability := availability_of avail;
       SatisfactionResult.stack :=
         match stack with [] => None | _ :: _ => Some (copied stack) end;
       SatisfactionResult.stack_sizes :=
         match stack with
         | [] => None
         | _ :: _ => Some (map (@length byte) stack)
         end;
       SatisfactionResult.stack_count := length stack;
       SatisfactionResult.error_message := None |}.
Proof.
  intros Hsat Hok. unfold miniscript_satisfy. rewrite Hsat.
  destruct stack as [|e rest]; [reflexivity|].
  run_monad.
  destruct (malloc_heap_ok h Hok) as [Hfst Hsnd].
  destruct (malloc h) as [ok1 h1]. cbn in Hfst, Hsnd. subst ok1.
  destruct (malloc_heap_ok h1 Hsnd) as [Hfst' Hsnd'].
  destruct (malloc h1) as [ok2 h2]. cbn in Hfst', Hsnd'. subst ok2.
  cbn [negb orb].
  destruct (copy_elements_heap_ok (e :: rest) h2 Hsnd') as [Hcopy _].
  destruct (copy_elements (e :: rest) h2) as [ps h3]. cbn in Hcopy.
  subst ps. reflexivity.
Qed.

Lemma satisfy_copies_stack_for_every_availability_witness :
  fst (miniscript_satisfy PkLib.lib Libc.sscanf_02x (Some pk_A)
         (Some signing_callbacks) true [])
  = {| SatisfactionResult.availability := MINISCRIPT_AVAILABILITY_YES;
       SatisfactionResult.stack := Some [Some [1; 2; 3]];
       SatisfactionResult.stack_sizes := Some [3%nat];
       SatisfactionResult.stack_count := 1;
       SatisfactionResult.error_message := None |}.
Proof.
  apply (satisfy_copies_stack_for_every_availability PkLib.lib
           Libc.sscanf_02x
           {| PkLib.key := {| str := "A" |}; PkLib.m_script_ctx := P2WSH |}
           P2WSH signing_callbacks true YES [[1; 2; 3]] []);
    reflexivity.
Defined.

(** ** Signatures *)

Lemma resize_length (v : list byte) (n : nat) (fill : byte) :
  length (resize v n fill) = n.
Proof.
  unfold resize. rewrite length_app, length_firstn, repeat_length. lia.
Qed.

(** C7, as the code has it.  What [Sign] leaves in [sig] comes from the
    sign callback whenever it answers YES, and is the untouched input
    whenever it answers NO; when it answers MAYBE the bytes are the
    callback's if it supplied some, and otherwise a placeholder the wrapper
    makes itself: [sig] resized to 72 bytes with 0x30.  Conversely, a sign
    callback that answers MAYBE always makes [Sign] answer MAYBE, with the
    callback's bytes if it supplied some and with that placeholder if it
    did not. *)
Theorem sign_bytes_origin
  (sscanf_02x : string -> option Z) (callbacks : option SatisfierCallbacks)
  (ms_ctx : MsContext) (key : StringKey) (sig sig' : list byte)
  (avail : Availability) :
  (CallbackSatisfier.Sign sscanf_02x callbacks ms_ctx key sig
   = (avail, sig') ->
   match avail with
   | NO => sig' = sig
   | YES =>
       exists cb call,
         callbacks = Some cb /\ sign_callback cb = Some call /\
         let r := call (CallbackSatisfier.ToPKBytes sscanf_02x ms_ctx key) in
         reply_avail r = MINISCRIPT_AVAILABILITY_YES /\
         has_bytes r = true /\ sig' = reply_bytes r
   | MAYBE =>
       exists cb call,
         callbacks = Some cb /\ sign_callback cb = Some call /\
         let r := call (CallbackSatisfier.ToPKBytes sscanf_02x ms_ctx key) in
         reply_avail r = MINISCRIPT_AVAILABILITY_MAYBE /\
         if has_bytes r then sig' = reply_bytes r
         else sig' = resize sig 72 48 /\ length sig' = 72%nat
   end) /\
  (forall cb call,
     callbacks = Some cb -> sign_callback cb = Some call ->
     let r := call (CallbackSatisfier.ToPKBytes sscanf_02x ms_ctx key) in
     reply_avail r = MINISCRIPT_AVAILABILITY_MAYBE ->
     CallbackSatisfier.Sign sscanf_02x callbacks ms_ctx key sig
     = (MAYBE, if has_bytes r then reply_bytes r else resize sig 72 48)).
Proof.
  split; [|intros cb call -> Hcall r Hmaybe; subst r;
           unfold CallbackSatisfier.Sign; rewrite Hcall, Hmaybe;
           cbn [Z.eqb MINISCRIPT_AVAILABILITY_MAYBE
                  MINISCRIPT_AVAILABILITY_YES andb];
           destruct (has_bytes _); reflexivity].
  unfold CallbackSatisfier.Sign.
  destruct callbacks as [cb|]; [|intros [= <- <-]; reflexivity].
  destruct (sign_callback cb) as [call|] eqn:Hcall;
    [|intros [= <- <-]; reflexivity].
  set (r := call _).
  destruct (reply_avail r =? MINISCRIPT_AVAILABILITY_YES) eqn:Hyes; cbn [andb].
  - destruct (has_bytes r) eqn:Hbytes.
    + intros [= <- <-]. exists cb, call. cbv zeta. fold r.
      apply Z.eqb_eq in Hyes. auto.
    + apply Z.eqb_eq in Hyes. rewrite Hyes. cbn.
      intros [= <- <-]. reflexivity.
  - destruct (reply_avail r =? MINISCRIPT_AVAILABILITY_MAYBE) eqn:Hmaybe.
    + apply Z.eqb_eq in Hmaybe.
      destruct (has_bytes r) eqn:Hbytes; intros [= <- <-];
        exists cb, call; cbv zeta; fold r; rewrite Hbytes;
        repeat split; auto using resize_length.
    + intros [= <- <-]. reflexivity.
Qed.

Lemma sign_bytes_origin_witness :
  (exists cb call,
     Some signing_callbacks = Some cb /\ sign_callback cb = Some call /\
     let r := call (CallbackSatisfier.ToPKBytes Libc.sscanf_02x P2WSH
                      {| str := "A" |}) in
     reply_avail r = MINISCRIPT_AVAILABILITY_YES /\
     has_bytes r = true /\ [1; 2; 3] = reply_bytes r) /\
  CallbackSatisfier.Sign Libc.sscanf_02x (Some estimating_callbacks)
    TAPSCRIPT {| str := compressed_key_hex |} [7]
  = (MAYBE, 7 :: repeat 48 71).
Proof.
  split.
  - apply (proj1 (sign_bytes_origin Libc.sscanf_02x (Some signing_callbacks)
                    P2WSH {| str := "A" |} [] [1; 2; 3] YES)).
    reflexivity.
  - apply (proj2 (sign_bytes_origin Libc.sscanf_02x
                    (Some estimating_callbacks) TAPSCRIPT
                    {| str := compressed_key_hex |} [7] [] NO)
             estimating_callbacks
             (fun _ => {| reply_avail := MINISCRIPT_AVAILABILITY_MAYBE;
                          reply_out := None;
                          reply_len := 0 |}));
      reflexivity.
Defined.

(** C7, as the claim states it, fails: the estimating provider hands back
    no signature bytes, neither for the key [A] nor for a compressed public
    key in hexadecimal, yet [Sign] leaves 72 bytes 0x30 in [sig], content
    the wrapper made up, and reports MAYBE. *)
Lemma wrapper_fabricates_placeholder_signature :
  match sign_callback estimating_callbacks with
  | Some call =>
      reply_out (call (CallbackSatisfier.ToPKBytes Libc.sscanf_02x P2WSH
                         {| str := "A" |})) = None /\
      reply_out (call (CallbackSatisfier.ToPKBytes Libc.sscanf_02x P2WSH
                         {| str := compressed_key_hex |})) = None
  | None => False
  end /\
  CallbackSatisfier.Sign Libc.sscanf_02x (Some estimating_callbacks) P2WSH
    {| str := "A" |} [] = (MAYBE, repeat 48 72) /\
  CallbackSatisfier.Sign Libc.sscanf_02x (Some estimating_callbacks) P2WSH
    {| str := compressed_key_hex |} [] = (MAYBE, repeat 48 72).
Proof. repeat split; reflexivity. Qed.

(** ** The width of serialized keys *)

Lemma hex_loop_length (sscanf_02x : string -> option Z) (s : string) :
  (forall result,
     CallbackSatisfier.hex_loop sscanf_02x s = Some result ->
     length result = Nat.div2 (S (String.length s))) /\
  (forall c result,
     CallbackSatisfier.hex_loop sscanf_02x (String c s) = Some result ->
     length result = Nat.div2 (S (S (String.length s)))).
Proof.
  induction s as [|a s [IH1 IH2]].
  - split.
    + intros result [= <-]. reflexivity.
    + intros c result. cbn.
      destruct (sscanf_02x _); [|discriminate].
      intros [= <-]. reflexivity.
  - split.
    + intros result H. apply (IH2 a result H).
    + intros c result. cbn [CallbackSatisfier.hex_loop].
      destruct (sscanf_02x _); [|discriminate].
      destruct (CallbackSatisfier.hex_loop sscanf_02x s) as [r|] eqn:Hr;
        [|discriminate].
      intros [= <-]. cbn [length String.length]. rewrite (IH1 r eq_refl).
      reflexivity.
Qed.

(** C6, as the code has it.  [StringKeyContext::ToPKBytes] yields exactly
    the fixed width of the context, 33 zero bytes for P2WSH and 32 for
    Tapscript, whatever the key.  [CallbackSatisfier::ToPKBytes] yields
    that width only when it falls back to its placeholder (a key shorter
    than two characters, or one on which some [sscanf] fails); for every
    other key it yields one byte per two characters of the key, whatever
    the context. *)
Theorem to_pk_bytes_width
  (sscanf_02x : string -> option Z) (ms_ctx : MsContext) (key : StringKey) :
  StringKeyContext.ToPKBytes ms_ctx key = repeat 0 (key_width ms_ctx) /\
  length (StringKeyContext.ToPKBytes ms_ctx key) = key_width ms_ctx /\
  length (CallbackSatisfier.ToPKBytes sscanf_02x ms_ctx key) =
    if (2 <=? String.length (str key))%nat then
      match CallbackSatisfier.hex_loop sscanf_02x (str key) with
      | Some _ => Nat.div2 (S (String.length (str key)))
      | None => key_width ms_ctx
      end
    else key_width ms_ctx.
Proof.
  assert (Hfixed :
    StringKeyContext.ToPKBytes ms_ctx key = repeat 0 (key_width ms_ctx))
    by (destruct ms_ctx; reflexivity).
  split; [exact Hfixed|]. split.
  - rewrite Hfixed. apply repeat_length.
  - unfold CallbackSatisfier.ToPKBytes, CallbackSatisfier.placeholder.
    destruct (2 <=? String.length (str key))%nat.
    + destruct (CallbackSatisfier.hex_loop sscanf_02x (str key)) as [r|] eqn:Hr.
      * apply (proj1 (hex_loop_length sscanf_02x (str key))). exact Hr.
      * destruct ms_ctx; reflexivity.
    + destruct ms_ctx; reflexivity.
Qed.

(** C6, as the claim states it, fails for the satisfier's [ToPKBytes]: the
    key [ab] serializes to the single byte 0xab in the segwit context, and
    a 33-byte compressed key in hexadecimal serializes to 33 bytes in the
    Tapscript context, where the width is 32. *)
Lemma satisfier_key_bytes_not_fixed_width :
  CallbackSatisfier.ToPKBytes Libc.sscanf_02x P2WSH {| str := "ab" |}
  = [171] /\
  key_width P2WSH = 33%nat /\
  length (CallbackSatisfier.ToPKBytes Libc.sscanf_02x TAPSCRIPT
            {| str := compressed_key_hex |}) = 33%nat /\
  key_width TAPSCRIPT = 32%nat.
Proof. repeat split; reflexivity. Qed.

(** ** Null arguments *)

Section NullArguments.

Variable L : miniscript.Lib.
Variable sscanf_02x : string -> option Z.

Lemma query_null (f : miniscript.Node L -> bool) nd :
  null_node nd = true -> query L f nd = false.
Proof. destruct nd as [[[n|] c]|]; cbn; congruence. Qed.

Lemma fetch_null {A : Type} (f : miniscript.Node L -> option A) nd out :
  null_node nd = true -> fetch L f nd out = (false, out).
Proof. destruct nd as [[[n|] c]|]; cbn; congruence. Qed.

Lemma fetch_null_out {A : Type} (f : miniscript.Node L -> option A) nd :
  fetch L f nd None = (false, None).
Proof. destruct nd as [[[n|] c]|]; reflexivity. Qed.

Lemma satisfy_null_node nd callbacks nonmalleable h :
  null_node nd = true ->
  bears_error (fst (miniscript_satisfy L sscanf_02x nd callbacks
                      nonmalleable h)).
Proof.
  unfold bears_error, miniscript_satisfy.
  destruct nd as [[[n|] c]|]; cbn [null_node]; try discriminate; intros _;
    run_monad; destruct (malloc h); reflexivity.
Qed.

Lemma satisfy_null_callbacks nd nonmalleable h :
  bears_error (fst (miniscript_satisfy L sscanf_02x nd None nonmalleable h)).
Proof.
  unfold bears_error, miniscript_satisfy.
  destruct nd as [[[n|] c]|]; run_monad; destruct (malloc h); reflexivity.
Qed.

Lemma from_string_null input ctx out h :
  input = None \/ out = None ->
  MiniscriptResult.success
    (fst (fst (miniscript_from_string L input ctx out h))) = false /\
  snd (fst (miniscript_from_string L input ctx out h)) = out.
Proof.
  unfold miniscript_from_string.
  intros [-> | ->]; [|destruct input]; run_monad; destruct (malloc h);
    split; reflexivity.
Qed.

Lemma from_script_null script ctx out h :
  script = None \/ out = None ->
  MiniscriptResult.success
    (fst (fst (miniscript_from_script L script ctx out h))) = false /\
  snd (fst (miniscript_from_script L script ctx out h)) = out.
Proof.
  unfold miniscript_from_script.
  intros [-> | ->]; [|destruct script]; run_monad; destruct (malloc h);
    split; reflexivity.
Qed.

End NullArguments.

(** C10.  The exported functions refuse null arguments without writing
    through any output parameter.  For a null node, or a node whose inner
    tree is null: the boolean accessors answer false, the string accessors
    and [miniscript_find_insane_sub] return null without allocating, the
    accessors with an output parameter answer false and leave the cell as
    it was, and [miniscript_satisfy] returns an error-bearing result.  For
    a null output pointer, whatever the node: the same refusal.  The two
    parsers refuse a null input or a null [out_node], leaving [*out_node]
    as it was; [miniscript_satisfy] refuses null callbacks; and
    [miniscript_satisfaction_result_free] does nothing on null. *)
Theorem null_arguments_are_refused
  (L : miniscript.Lib) (sscanf_02x : string -> option Z) :
  (forall nd : option (MiniscriptNode L), null_node nd = true ->
     miniscript_is_valid L nd = false /\
     miniscript_is_sane L nd = false /\
     miniscript_is_non_malleable L nd = false /\
     miniscript_needs_signature L nd = false /\
     miniscript_has_timelock_mix L nd = false /\
     miniscript_is_valid_top_level L nd = false /\
     miniscript_check_ops_limit L nd = false /\
     miniscript_check_stack_size L nd = false /\
     miniscript_check_duplicate_key L nd = false /\
     miniscript_valid_satisfactions L nd = false /\
     miniscript_find_insane_sub L nd = None /\
     (forall h, miniscript_to_string L nd h = (None, h)) /\
     (forall h, miniscript_get_type L nd h = (None, h)) /\
     (forall out_script out_len h,
        miniscript_to_script L nd out_script out_len h
        = (false, out_script, out_len, h)) /\
     (forall out, miniscript_max_satisfaction_size L nd out = (false, out)) /\
     (forall out, miniscript_get_ops L nd out = (false, out)) /\
     (forall out, miniscript_get_stack_size L nd out = (false, out)) /\
     (forall out, miniscript_get_exec_stack_size L nd out = (false, out)) /\
     (forall out, miniscript_get_script_size L nd out = (false, out)) /\
     (forall out, miniscript_get_static_ops L nd out = (false, out)) /\
     (forall callbacks nonmalleable h,
        bears_error (fst (miniscript_satisfy L sscanf_02x nd callbacks
                            nonmalleable h)))) /\
  (forall nd : option (MiniscriptNode L),
     (forall out_len h,
        miniscript_to_script L nd None out_len h
        = (false, None, out_len, h)) /\
     (forall out_script h,
        miniscript_to_script L nd out_script None h
        = (false, out_script, None, h)) /\
     miniscript_max_satisfaction_size L nd None = (false, None) /\
     miniscript_get_ops L nd None = (false, None) /\
     miniscript_get_stack_size L nd None = (false, None) /\
     miniscript_get_exec_stack_size L nd None = (false, None) /\
     miniscript_get_script_size L nd None = (false, None) /\
     miniscript_get_static_ops L nd None = (false, None) /\
     (forall nonmalleable h,
        bears_error (fst (miniscript_satisfy L sscanf_02x nd None
                            nonmalleable h)))) /\
  (forall input script ctx out h,
     (input = None \/ out = None ->
      MiniscriptResult.success
        (fst (fst (miniscript_from_string L input ctx out h))) = false /\
      snd (fst (miniscript_from_string L input ctx out h)) = out) /\
     (script = None \/ out = None ->
      MiniscriptResult.success
        (fst (fst (miniscript_from_script L script ctx out h))) = false /\
      snd (fst (miniscript_from_script L script ctx out h)) = out)) /\
  miniscript_satisfaction_result_free None = None.
Proof.
  repeat apply conj.
  - intros nd Hnull.
    repeat apply conj;
      try (apply query_null; exact Hnull);
      try (intros out; apply fetch_null; exact Hnull);
      try (intros; apply satisfy_null_node; exact Hnull);
      destruct nd as [[[n|] c]|]; try discriminate Hnull; reflexivity.
  - intros nd.
    repeat apply conj;
      try apply fetch_null_out;
      try (intros; apply satisfy_null_callbacks);
      intros; destruct nd as [[[n|] c]|]; try reflexivity;
      destruct out_script; reflexivity.
  - intros input script ctx out h. split.
    + apply from_string_null.
    + apply from_script_null.
  - reflexivity.
Qed.

Lemma null_arguments_are_refused_witness :
  miniscript_is_valid PkLib.lib None = false /\
  miniscript_get_ops PkLib.lib
    (Some (Build_MiniscriptNode PkLib.lib None TAPSCRIPT)) (Some 7)
  = (false, Some 7) /\
  miniscript_to_script PkLib.lib (Some pk_A) None (Some 5%nat) []
  = (false, None, Some 5%nat, []).
Proof.
  pose proof (null_arguments_are_refused PkLib.lib Libc.sscanf_02x) as H.
  destruct H as [Hnode [Hout _]].
  split; [apply (Hnode None); reflexivity|].
  split.
  - apply (Hnode (Some (Build_MiniscriptNode PkLib.lib None TAPSCRIPT))).
    reflexivity.
  - apply (Hout (Some pk_A)).
Defined.

(** ** The network of an address *)

(** X5.  With non-null arguments, [descriptor_parse_with_network] selects the
    chain parameters of its [network] argument before it parses: what it
    returns and stores does not depend on the parameters selected before the
    call, and it leaves those of [network] selected, on every path. *)
Lemma descriptor_parse_with_network_selects (D : core.Lib) (g1 g2 : Globals)
  (desc_str : string) (network : Z) (old : option (DescriptorNode D))
  (h : Heap) :
  descriptor_parse_with_network D g1 (Some desc_str) network (Some old) h =
  descriptor_parse_with_network D g2 (Some desc_str) network (Some old) h /\
  snd (fst (descriptor_parse_with_network D g1 (Some desc_str) network
              (Some old) h))
  = SelectParams network g1.
Proof.
  split; [reflexivity|].
  unfold descriptor_parse_with_network.
  destruct (core.Parse D (Params (SelectParams network g1)) desc_str)
    as [[[[|first rest] prov] error]|[what|]];
    run_monad; destruct (malloc h) as [[] h']; try reflexivity.
  destruct (malloc h'); reflexivity.
Qed.

(** C8 on the code.  [descriptor_get_address] never reads its [network]
    argument: every network gives the result of the mainnet argument, and
    the address is encoded with the parameters the process-wide state holds
    at the time of the call, which [SelectParams] maps from its number:
    mainnet for 0, testnet for 1 and 2, regtest for 3.  For the descriptor
    [wpkh(KEY)] of the generator's key: after a parse for mainnet, the
    address asked for regtest is the mainnet address [bc1q...], and the
    very same call gives the regtest address [bcrt1q...] once the
    process-wide state was switched. *)
Theorem descriptor_get_address_reads_ambient_params :
  (forall (D : core.Lib) (g : Globals) (nd : option (DescriptorNode D))
          (pos network : Z) (h : Heap),
     descriptor_get_address D g nd pos network h =
     descriptor_get_address D g nd pos DESCRIPTOR_NETWORK_MAINNET h) /\
  (forall (D : core.Lib) (g : Globals) d prov (pos network : Z) (h : Heap)
          script rest ty dest,
     core.Expand D d pos prov = Returns (true, script :: rest) ->
     core.GetOutputType D d = Some ty ->
     destination_of D script = Some dest ->
     descriptor_get_address D g
       (Some (Build_DescriptorNode D (Some d) prov)) pos network h =
     match core.EncodeDestination D (Params g) dest with
     | Returns address => strdup_safe (Some address) h
     | Throws _ => (None, h)
     end) /\
  (forall (network : Z) (g : Globals),
     Params (SelectParams network g) =
       if network =? DESCRIPTOR_NETWORK_MAINNET then g_mainnet_params
       else if network =? DESCRIPTOR_NETWORK_TESTNET then g_testnet_params
       else if network =? DESCRIPTOR_NETWORK_SIGNET then g_testnet_params
       else if network =? DESCRIPTOR_NETWORK_REGTEST then g_regtest_params
       else g_mainnet_params) /\
  (let after_parse :=
     fst (descriptor_parse_with_network ProbeCore.lib initial_globals
            (Some ProbeCore.descriptor_text) DESCRIPTOR_NETWORK_MAINNET
            (Some None) []) in
   fst after_parse =
     ({| DescriptorResult.success := true;
         DescriptorResult.error_message := None |},
      Some (Some ProbeCore.parsed_node)) /\
   fst (descriptor_get_address ProbeCore.lib (snd after_parse)
          (Some ProbeCore.parsed_node) 0 DESCRIPTOR_NETWORK_REGTEST [])
   = Some "bc1qw508d6qejxtdg4y5r3zarvary0c5xw7kv8f3t4"%string /\
   fst (descriptor_get_address ProbeCore.lib
          (descriptor_select_params DESCRIPTOR_NETWORK_REGTEST
             (snd after_parse))
          (Some ProbeCore.parsed_node) 0 DESCRIPTOR_NETWORK_REGTEST [])
   = Some "bcrt1qw508d6qejxtdg4y5r3zarvary0c5xw7kygt080"%string).
Proof.
  split; [reflexivity|]. split; [|split].
  - intros D g d prov pos network h script rest ty dest HE HT HD.
    unfold descriptor_get_address. rewrite HE, HT, HD.
    destruct (core.EncodeDestination D (Params g) dest); reflexivity.
  - intros network g.
    unfold SelectParams, Params, DESCRIPTOR_NETWORK_MAINNET,
      DESCRIPTOR_NETWORK_TESTNET, DESCRIPTOR_NETWORK_SIGNET,
      DESCRIPTOR_NETWORK_REGTEST.
    destruct (network =? 0); [reflexivity|].
    destruct (network =? 1); [reflexivity|].
    destruct (network =? 2); [reflexivity|].
    destruct (network =? 3); reflexivity.
  - cbv zeta. repeat split; vm_compute; reflexivity.
Qed.

(** ** Further properties of the wrappers *)

(** X2.  The hash queries never make up a preimage: the vector holds the
    callback's bytes when the answer is YES and is left as it was when the
    answer is NO or MAYBE. *)
Theorem hash_preimage_origin
  (callbacks : option SatisfierCallbacks)
  (field : SatisfierCallbacks -> option (list byte -> CallbackReply))
  (hash preimage preimage' : list byte) (avail : Availability) :
  CallbackSatisfier.sat_hash callbacks field hash preimage
  = (avail, preimage') ->
  match avail with
  | YES =>
      exists cb call,
        callbacks = Some cb /\ field cb = Some call /\
        has_bytes (call hash) = true /\ preimage' = reply_bytes (call hash)
  | NO | MAYBE => preimage' = preimage
  end.
Proof.
  unfold CallbackSatisfier.sat_hash.
  destruct callbacks as [cb|]; [|intros [= <- <-]; reflexivity].
  destruct (field cb) as [call|] eqn:Hcall; [|intros [= <- <-]; reflexivity].
  destruct (reply_avail (call hash) =? MINISCRIPT_AVAILABILITY_YES);
    cbn [andb].
  - destruct (has_bytes (call hash)) eqn:Hbytes.
    + intros [= <- <-]. exists cb, call. auto.
    + destruct (reply_avail (call hash) =? MINISCRIPT_AVAILABILITY_MAYBE);
        intros [= <- <-]; reflexivity.
  - destruct (reply_avail (call hash) =? MINISCRIPT_AVAILABILITY_MAYBE);
      intros [= <- <-]; reflexivity.
Qed.

Lemma hash_preimage_origin_witness :
  exists cb call,
    Some preimage_callbacks = Some cb /\
    sat_sha256_callback cb = Some call /\
    has_bytes (call [1]) = true /\ [9; 9] = reply_bytes (call [1]).
Proof.
  apply (hash_preimage_origin (Some preimage_callbacks)
           sat_sha256_callback [1] [] [9; 9] YES).
  reflexivity.
Defined.

(** X3.  When [miniscript_to_script] answers true, the bytes it stored are the
    library's script for the node under the string key context, and the
    length it stored is their number. *)
Theorem to_script_stores_script
  (L : miniscript.Lib) (nd : option (MiniscriptNode L))
  (out_script : option (option (list byte))) (out_len : option nat)
  (h : Heap) :
  match fst (miniscript_to_script L nd out_script out_len h) with
  | (true, stored_script, stored_len) =>
      exists n c script,
        nd = Some (Build_MiniscriptNode L (Some n) c) /\
        miniscript.ToScript L n (StringKeyContext.make c) = Returns script /\
        stored_script = Some (Some script) /\
        stored_len = Some (length script)
  | (false, _, _) => True
  end.
Proof.
  unfold miniscript_to_script.
  destruct nd as [[[n|] c]|]; try exact I.
  destruct out_script as [old_script|]; try exact I.
  destruct out_len as [old_len|]; try exact I.
  destruct (miniscript.ToScript L n (StringKeyContext.make c))
    as [script|e] eqn:Hscript; try exact I.
  run_monad. destruct (malloc h) as [[] h']; cbn; try exact I.
  exists n, c, script. auto.
Qed.

Lemma hexmap_at_digit (n : Z) :
  0 <= n < 16 -> HexDigit (hexmap_at n) = n.
Proof.
  intros Hn. rewrite <- (Z2Nat.id n) by lia.
  assert (Hm : (Z.to_nat n < 16)%nat) by lia.
  revert Hm. generalize (Z.to_nat n) as m. intros m Hm.
  do 16 (destruct m as [|m]; [reflexivity|]). lia.
Qed.

(** X6.  [HexStr] writes two characters per byte, and [HexDigit] reads the high
    and the low half of each byte back from them. *)
Theorem HexDigit_of_HexStr (s : list byte) :
  Forall (fun c => 0 <= c < 256) s ->
  String.length (HexStr s) = (2 * length s)%nat /\
  map HexDigit (list_ascii_of_string (HexStr s)) =
  flat_map (fun c => [c / 16; c mod 16]) s.
Proof.
  induction 1 as [|c s Hc Hs [IHlen IHmap]]; [split; reflexivity|].
  cbn [HexStr String.length length list_ascii_of_string map flat_map app].
  split; [lia|].
  rewrite IHmap.
  rewrite Z.shiftr_div_pow2 by lia.
  change 15 with (Z.ones 4). rewrite Z.land_ones by lia.
  change (2 ^ 4) with 16.
  rewrite !hexmap_at_digit; [reflexivity| |].
  - apply Z.mod_pos_bound. lia.
  - split; [apply Z.div_pos; lia|apply Z.div_lt_upper_bound; lia].
Qed.

Lemma HexDigit_of_HexStr_witness :
  String.length (HexStr [171; 5]) = 4%nat /\
  map HexDigit (list_ascii_of_string (HexStr [171; 5])) = [10; 11; 0; 5].
Proof.
  apply (HexDigit_of_HexStr [171; 5]).
  repeat constructor; lia.
Defined.

(** ** The round trips on the policy pk(K) *)

(** Through the script form the key of [pk(A)] is lost and the bytes are
    kept: the script parses back to [pk(decoded_key)], which serializes to
    the same bytes. *)
Example script_round_trip_of_pk_A :
  let stored := fst (miniscript_to_script PkLib.lib (Some pk_A)
                       (Some None) (Some 0%nat) []) in
  stored = (true, Some (Some (33 :: repeat 0 33 ++ [172])), Some 35%nat) /\
  let reparsed := fst (miniscript_from_script PkLib.lib
                         (Some (33 :: repeat 0 33 ++ [172]))
                         MINISCRIPT_CONTEXT_WSH (Some None) []) in
  snd reparsed =
    Some (Some (Build_MiniscriptNode PkLib.lib
                  (Some {| PkLib.key := {| str := "decoded_key" |};
                           PkLib.m_script_ctx := P2WSH |}) P2WSH)) /\
  snd reparsed <> Some (Some pk_A) /\
  match snd reparsed with
  | Some again =>
      fst (miniscript_to_script PkLib.lib again (Some None) (Some 0%nat) [])
      = stored
  | None => False
  end.
Proof.
  cbv zeta. repeat split; try reflexivity. discriminate.
Qed.

(** Through the text form the key is kept. *)
Example text_round_trip_of_pk_A :
  fst (miniscript_to_string PkLib.lib (Some pk_A) []) = Some "pk(A)"%string /\
  snd (fst (miniscript_from_string PkLib.lib (Some "pk(A)"%string)
              MINISCRIPT_CONTEXT_WSH (Some None) []))
  = Some (Some pk_A).
Proof. split; reflexivity. Qed.

(** ** What the wrappers add to the round trips *)

Lemma ms_ctx_of_context_of (c : MsContext) : ms_ctx_of (context_of c) = Some c.
Proof. destruct c; reflexivity. Qed.

Section RoundTripProperties.

Variable L : miniscript.Lib.

Lemma to_script_true (n : miniscript.Node L) (c : MsContext)
  (script : list byte) (len : option nat) :
  fst (miniscript_to_script L (Some (node_of L n c)) (Some None)
         (Some 0%nat) [])
  = (true, Some (Some script), len) <->
  miniscript.ToScript L n (StringKeyContext.make c) = Returns script /\
  len = Some (length script).
Proof.
  unfold miniscript_to_script, node_of.
  destruct (miniscript.ToScript L n (StringKeyContext.make c)) as [s|e];
    cbn; split.
  - intros [= -> <-]. auto.
  - intros [[= ->] ->]. reflexivity.
  - discriminate.
  - intros [[=] _].
Qed.

Lemma store_parsed_success parsed (c : MsContext) failed invalid unknown
  (p : MiniscriptNode L) :
  fst (store_parsed L parsed c failed invalid unknown [])
  = ({| MiniscriptResult.success := true;
        MiniscriptResult.error_message := None |}, Some (Some p)) <->
  exists n,
    parsed = Returns (Some n) /\ miniscript.IsValid L n = true /\
    p = node_of L n c.
Proof.
  unfold store_parsed, node_of, new_MiniscriptNode, failure.
  destruct parsed as [[n|]|[what|]]; cbn.
  - destruct (miniscript.IsValid L n) eqn:Hvalid; cbn; split.
    + intros [= <-]. eauto.
    + intros (n' & [= <-] & _ & ->). reflexivity.
    + discriminate.
    + intros (n' & [= <-] & Hn & _). congruence.
  - split; [discriminate|]. intros (n & [=] & _).
  - split; [discriminate|]. intros (n & [=] & _).
  - split; [discriminate|]. intros (n & [=] & _).
Qed.

(** X7.  The script round trip across the exported functions holds of a tree
    exactly when the library's own round trip does under the string key
    context: the wrappers add the validity check of the parsed tree and
    nothing else. *)
Theorem script_round_trip_is_the_librarys
  (n : miniscript.Node L) (c : MsContext) :
  wrapper_script_round_trip L n c <-> library_script_round_trip L n c.
Proof.
  unfold wrapper_script_round_trip, library_script_round_trip,
    miniscript_from_script.
  cbv zeta. split.
  - intros (script & reparsed & Hto & Hfrom & Hagain).
    rewrite ms_ctx_of_context_of in Hfrom.
    apply to_script_true in Hto. destruct Hto as [Hto _].
    apply store_parsed_success in Hfrom.
    destruct Hfrom as (n' & Hparsed & Hvalid & ->).
    apply to_script_true in Hagain. destruct Hagain as [Hagain _].
    exists script, n'. auto.
  - intros (script & n' & Hto & Hparsed & Hvalid & Hagain).
    exists script, (node_of L n' c).
    rewrite ms_ctx_of_context_of.
    repeat split.
    + apply to_script_true. auto.
    + apply store_parsed_success. eauto.
    + apply to_script_true. auto.
Qed.

Lemma to_string_some (n : miniscript.Node L) (c : MsContext) (s : string) :
  fst (miniscript_to_string L (Some (node_of L n c)) []) = Some s <->
  miniscript.ToString L n (StringKeyContext.make c) = Returns (Some s).
Proof.
  unfold miniscript_to_string, node_of.
  destruct (miniscript.ToString L n (StringKeyContext.make c))
    as [[s'|]|e]; cbn; split; congruence.
Qed.

(** X8.  The text round trip across the exported functions holds of a text
    exactly when the library's own round trip does under the string key
    context. *)
Theorem text_round_trip_is_the_librarys (s : string) (c : MsContext) :
  wrapper_text_round_trip L s c <-> library_text_round_trip L s c.
Proof.
  unfold wrapper_text_round_trip, library_text_round_trip,
    miniscript_from_string.
  cbv zeta. rewrite ms_ctx_of_context_of. split.
  - intros H n Hparsed Hvalid.
    destruct (H (node_of L n c)) as (s' & Hprint & Hagain).
    { apply store_parsed_success. eauto. }
    exists s'. split.
    + apply to_string_some. exact Hprint.
    + apply store_parsed_success in Hagain.
      destruct Hagain as (n' & Hparsed' & _ & [= <-]). exact Hparsed'.
  - intros H parsed Hfrom.
    apply store_parsed_success in Hfrom.
    destruct Hfrom as (n & Hparsed & Hvalid & ->).
    destruct (H n Hparsed Hvalid) as (s' & Hprint & Hagain).
    exists s'. split.
    + apply to_string_some. exact Hprint.
    + apply store_parsed_success. eauto.
Qed.

End RoundTripProperties.

(** ** The order on keys *)

Lemma string_ltb_irrefl (a : string) : string_ltb a a = false.
Proof.
  induction a as [|x a IH]; [reflexivity|].
  cbn [string_ltb]. rewrite Nat.ltb_irrefl. exact IH.
Qed.

Lemma string_ltb_trans (a b c : string) :
  string_ltb a b = true -> string_ltb b c = true -> string_ltb a c = true.
Proof.
  revert b c. induction a as [|x a IH]; intros [|y b] [|z c];
    cbn [string_ltb]; try discriminate; try reflexivity.
  destruct (Nat.ltb_spec (nat_of_ascii x) (nat_of_ascii y)) as [Hxy|Hxy];
    destruct (Nat.ltb_spec (nat_of_ascii y) (nat_of_ascii z)) as [Hyz|Hyz];
    destruct (Nat.ltb_spec (nat_of_ascii y) (nat_of_ascii x)) as [Hyx|Hyx];
    destruct (Nat.ltb_spec (nat_of_ascii z) (nat_of_ascii y)) as [Hzy|Hzy];
    destruct (Nat.ltb_spec (nat_of_ascii x) (nat_of_ascii z)) as [Hxz|Hxz];
    destruct (Nat.ltb_spec (nat_of_ascii z) (nat_of_ascii x)) as [Hzx|Hzx];
    try discriminate; try reflexivity; try lia.
  apply IH.
Qed.

Lemma nat_of_ascii_eq (x y : ascii) :
  nat_of_ascii x = nat_of_ascii y -> x = y.
Proof.
  intros H. rewrite <- (ascii_nat_embedding x), <- (ascii_nat_embedding y).
  now rewrite H.
Qed.

Lemma string_ltb_total (a b : string) :
  string_ltb a b = false -> string_ltb b a = false -> a = b.
Proof.
  revert b. induction a as [|x a IH]; intros [|y b]; cbn [string_ltb];
    try discriminate; try reflexivity.
  destruct (Nat.ltb_spec (nat_of_ascii x) (nat_of_ascii y)) as [Hxy|Hxy];
    [discriminate|].
  destruct (Nat.ltb_spec (nat_of_ascii y) (nat_of_ascii x)) as [Hyx|Hyx];
    [discriminate|].
  intros Hab Hba. f_equal.
  - apply nat_of_ascii_eq. lia.
  - apply IH; assumption.
Qed.

(** X9.  [KeyCompare], which both key contexts hand to the library, is a
    strict total order on keys: no key is below itself, the order is
    transitive, and two keys neither of which is below the other are the
    same key. *)
Theorem KeyCompare_strict_total_order
  (sscanf_02x : string -> option Z) (callbacks : option SatisfierCallbacks)
  (ms_ctx : MsContext) (kc : Ctx.KeyContext) :
  kc = StringKeyContext.make ms_ctx \/
  kc = Sat.key_ctx (CallbackSatisfier.make sscanf_02x callbacks ms_ctx) ->
  (forall a, Ctx.KeyCompare kc a a = false) /\
  (forall a b c,
     Ctx.KeyCompare kc a b = true -> Ctx.KeyCompare kc b c = true ->
     Ctx.KeyCompare kc a c = true) /\
  (forall a b,
     Ctx.KeyCompare kc a b = false -> Ctx.KeyCompare kc b a = false ->
     a = b).
Proof.
  intros [-> | ->]; cbn; repeat split.
  1, 4: intros a; apply string_ltb_irrefl.
  1, 3: intros a b c; apply string_ltb_trans.
  1, 2: intros [a] [b] Hab Hba; f_equal; cbn in *;
    apply string_ltb_total; assumption.
Qed.

Lemma KeyCompare_strict_total_order_witness :
  Ctx.KeyCompare (StringKeyContext.make P2WSH)
    {| str := "A" |} {| str := "A" |} = false.
Proof.
  apply (KeyCompare_strict_total_order Libc.sscanf_02x None P2WSH
           (StringKeyContext.make P2WSH) (or_introl eq_refl)).
Defined.


(** ** Keys in hexadecimal *)

Lemma Libc_reads_hex_pairs : reads_hex_pairs Libc.sscanf_02x.
Proof.
  intros d1 d2 rest H1 H2.
  rewrite <- (Z2Nat.id d1), <- (Z2Nat.id d2) by lia.
  assert (Hm1 : (Z.to_nat d1 < 16)%nat) by lia.
  assert (Hm2 : (Z.to_nat d2 < 16)%nat) by lia.
  revert Hm1 Hm2. generalize (Z.to_nat d1) as m1, (Z.to_nat d2) as m2.
  intros m1 m2 Hm1 Hm2.
  do 16 (destruct m1 as [|m1];
         [do 16 (destruct m2 as [|m2]; [reflexivity|]); lia|]).
  lia.
Qed.

Lemma HexStr_length (s : list byte) :
  String.length (HexStr s) = (2 * length s)%nat.
Proof.
  induction s as [|c s IH]; [reflexivity|].
  cbn [HexStr String.length length]. rewrite IH. lia.
Qed.

Lemma hex_loop_HexStr (sscanf_02x : string -> option Z) (s : list byte) :
  reads_hex_pairs sscanf_02x ->
  Forall (fun c => 0 <= c < 256) s ->
  CallbackSatisfier.hex_loop sscanf_02x (HexStr s) = Some s.
Proof.
  intros Hscan. induction 1 as [|c s Hc Hs IH]; [reflexivity|].
  cbn [HexStr CallbackSatisfier.hex_loop].
  rewrite Hscan.
  - rewrite IH. f_equal. f_equal.
    rewrite Z.shiftr_div_pow2 by lia.
    change 15 with (Z.ones 4). rewrite Z.land_ones by lia.
    change (2 ^ 4) with 16.
    rewrite <- (Z.div_mod c 16) by lia. apply Z.mod_small. lia.
  - rewrite Z.shiftr_div_pow2 by lia. change (2 ^ 4) with 16.
    split; [apply Z.div_pos; lia|apply Z.div_lt_upper_bound; lia].
  - change 15 with (Z.ones 4). rewrite Z.land_ones by lia.
    apply Z.mod_pos_bound. lia.
Qed.

(** X10.  A key written in hexadecimal reaches the callbacks as its bytes:
    for every non-empty sequence of bytes, [CallbackSatisfier::ToPKBytes] of
    the key whose text is [HexStr] of the bytes is that sequence, in either
    context and whatever its length. *)
Theorem ToPKBytes_of_HexStr
  (sscanf_02x : string -> option Z) (ms_ctx : MsContext) (s : list byte) :
  reads_hex_pairs sscanf_02x ->
  s <> [] ->
  Forall (fun c => 0 <= c < 256) s ->
  CallbackSatisfier.ToPKBytes sscanf_02x ms_ctx {| str := HexStr s |} = s.
Proof.
  intros Hscan Hne Hs. unfold CallbackSatisfier.ToPKBytes. cbn [str].
  assert (Hlen : (2 <=? String.length (HexStr s))%nat = true).
  { apply Nat.leb_le. rewrite HexStr_length.
    destruct s; [contradiction|]. cbn [length]. lia. }
  rewrite Hlen, (hex_loop_HexStr sscanf_02x s Hscan Hs). reflexivity.
Qed.

Lemma ToPKBytes_of_HexStr_witness :
  CallbackSatisfier.ToPKBytes Libc.sscanf_02x TAPSCRIPT
    {| str := HexStr [2; 198; 4] |} = [2; 198; 4].
Proof.
  apply (ToPKBytes_of_HexStr Libc.sscanf_02x TAPSCRIPT [2; 198; 4]).
  - exact Libc_reads_hex_pairs.
  - discriminate.
  - repeat constructor; lia.
Defined.

(** The loop of [ToPKBytes] returns from inside exactly when [sscanf]
    fails at one of the even offsets below the size of the text. *)
Lemma hex_loop_gives_up (sscanf_02x : string -> option Z) (s : string) :
  (CallbackSatisfier.hex_loop sscanf_02x s = None <->
   exists i,
     (2 * i < String.length s)%nat /\
     sscanf_02x (c_str_from (2 * i) s) = None) /\
  (forall c,
     CallbackSatisfier.hex_loop sscanf_02x (String c s) = None <->
     exists i,
       (2 * i < String.length (String c s))%nat /\
       sscanf_02x (c_str_from (2 * i) (String c s)) = None).
Proof.
  induction s as [|a s [IH1 IH2]].
  - split.
    + cbn. split; [discriminate|]. intros (i & Hi & _). lia.
    + intros c. cbn [CallbackSatisfier.hex_loop String.length].
      destruct (sscanf_02x (String c EmptyString)) eqn:Hc.
      * split; [discriminate|]. intros (i & Hi & Hnone).
        assert (i = 0%nat) by lia. subst i. cbn in Hnone. congruence.
      * split; [|reflexivity]. intros _. exists 0%nat. cbn. split; [lia|].
        exact Hc.
  - split; [apply IH2|].
    intros c. cbn [CallbackSatisfier.hex_loop String.length].
    destruct (sscanf_02x (String c (String a s))) eqn:Hc.
    + destruct (CallbackSatisfier.hex_loop sscanf_02x s) eqn:Hs.
      * split; [discriminate|]. intros (i & Hi & Hnone).
        destruct i as [|i]; [cbn in Hnone; congruence|].
        replace (2 * S i)%nat with (S (S (2 * i))) in Hnone by lia.
        cbn [c_str_from] in Hnone.
        assert (Hex : exists j,
                   (2 * j < String.length s)%nat /\
                   sscanf_02x (c_str_from (2 * j) s) = None)
          by (exists i; split; [lia|exact Hnone]).
        apply IH1 in Hex. discriminate Hex.
      * split; [|reflexivity]. intros _.
        destruct (proj1 IH1 eq_refl) as (i & Hi & Hnone).
        exists (S i). split; [lia|].
        replace (2 * S i)%nat with (S (S (2 * i))) by lia.
        exact Hnone.
    + split; [|reflexivity]. intros _. exists 0%nat. split; [lia|].
      exact Hc.
Qed.

Lemma ToPKBytes_opaque_key (sscanf_02x : string -> option Z)
  (ms_ctx : MsContext) (key : StringKey) :
  opaque_key sscanf_02x key ->
  CallbackSatisfier.ToPKBytes sscanf_02x ms_ctx key
  = repeat 0 (key_width ms_ctx).
Proof.
  unfold CallbackSatisfier.ToPKBytes, CallbackSatisfier.placeholder.
  intros [Hshort | Hfail].
  - replace (2 <=? String.length (str key))%nat with false
      by (symmetry; apply Nat.leb_gt; exact Hshort).
    destruct ms_ctx; reflexivity.
  - apply (proj1 (hex_loop_gives_up sscanf_02x (str key))) in Hfail.
    rewrite Hfail. destruct (2 <=? _)%nat; destruct ms_ctx; reflexivity.
Qed.

Lemma ToPKBytes_read_key (sscanf_02x : string -> option Z)
  (ms_ctx : MsContext) (key : StringKey) :
  ~ opaque_key sscanf_02x key ->
  CallbackSatisfier.hex_loop sscanf_02x (str key)
  = Some (CallbackSatisfier.ToPKBytes sscanf_02x ms_ctx key).
Proof.
  intros Hread. unfold CallbackSatisfier.ToPKBytes.
  destruct (Nat.leb_spec 2 (String.length (str key))) as [_ | Hshort];
    [|elim Hread; left; exact Hshort].
  destruct (CallbackSatisfier.hex_loop sscanf_02x (str key)) eqn:Hloop;
    [reflexivity|].
  elim Hread. right.
  apply (proj1 (hex_loop_gives_up sscanf_02x (str key))). exact Hloop.
Qed.

(** X11.  The sign callback cannot tell apart two keys on which
    [ToPKBytes] gives up reading hexadecimal (a text shorter than two
    characters, or one where [sscanf] fails at an even offset): for each of
    them it receives the zero bytes of the context's width, so [Sign]
    answers the same for both.  These are the only keys that fall back:
    for every other key the callback receives what the loop read, one byte
    for every two characters begun. *)
Theorem Sign_cannot_tell_opaque_keys_apart
  (sscanf_02x : string -> option Z) (callbacks : option SatisfierCallbacks)
  (ms_ctx : MsContext) (k1 k2 : StringKey) (sig : list byte) :
  opaque_key sscanf_02x k1 -> opaque_key sscanf_02x k2 ->
  CallbackSatisfier.ToPKBytes sscanf_02x ms_ctx k1
  = repeat 0 (key_width ms_ctx) /\
  CallbackSatisfier.ToPKBytes sscanf_02x ms_ctx k2
  = repeat 0 (key_width ms_ctx) /\
  CallbackSatisfier.Sign sscanf_02x callbacks ms_ctx k1 sig
  = CallbackSatisfier.Sign sscanf_02x callbacks ms_ctx k2 sig /\
  (forall k,
     ~ opaque_key sscanf_02x k ->
     CallbackSatisfier.hex_loop sscanf_02x (str k)
     = Some (CallbackSatisfier.ToPKBytes sscanf_02x ms_ctx k) /\
     length (CallbackSatisfier.ToPKBytes sscanf_02x ms_ctx k)
     = Nat.div2 (S (String.length (str k)))).
Proof.
  intros H1 H2.
  pose proof (ToPKBytes_opaque_key sscanf_02x ms_ctx k1 H1) as E1.
  pose proof (ToPKBytes_opaque_key sscanf_02x ms_ctx k2 H2) as E2.
  repeat split; try assumption.
  - unfold CallbackSatisfier.Sign. rewrite E1, E2. reflexivity.
  - apply ToPKBytes_read_key. assumption.
  - apply (proj1 (hex_loop_length sscanf_02x (str k))).
    apply ToPKBytes_read_key. assumption.
Qed.

Lemma Sign_cannot_tell_opaque_keys_apart_witness :
  CallbackSatisfier.ToPKBytes Libc.sscanf_02x P2WSH {| str := "A" |}
  = repeat 0 (key_width P2WSH) /\
  CallbackSatisfier.ToPKBytes Libc.sscanf_02x P2WSH {| str := "abzz" |}
  = repeat 0 (key_width P2WSH) /\
  CallbackSatisfier.Sign Libc.sscanf_02x (Some signing_callbacks) P2WSH
    {| str := "A" |} []
  = CallbackSatisfier.Sign Libc.sscanf_02x (Some signing_callbacks) P2WSH
      {| str := "abzz" |} [] /\
  (forall k,
     ~ opaque_key Libc.sscanf_02x k ->
     CallbackSatisfier.hex_loop Libc.sscanf_02x (str k)
     = Some (CallbackSatisfier.ToPKBytes Libc.sscanf_02x P2WSH k) /\
     length (CallbackSatisfier.ToPKBytes Libc.sscanf_02x P2WSH k)
     = Nat.div2 (S (String.length (str k)))).
Proof.
  apply (Sign_cannot_tell_opaque_keys_apart Libc.sscanf_02x
           (Some signing_callbacks) P2WSH
           {| str := "A" |} {| str := "abzz" |} []).
  - left. cbn. lia.
  - right. exists 1%nat. split; [cbn; lia|reflexivity].
Defined.

(** The key [bob] is not hexadecimal, yet it does not fall back: [sscanf]
    reads the digit [b] at both offsets. *)
Example ToPKBytes_of_bob :
  CallbackSatisfier.ToPKBytes Libc.sscanf_02x P2WSH {| str := "bob" |}
  = [11; 11].
Proof. reflexivity. Qed.

(** ** The shape of a satisfaction result *)

Lemma copy_elements_sizes (stack : list (list byte)) (h : Heap) :
  Forall2 (fun p size =>
             match p with
             | Some e => e <> [] /\ length e = size
             | None => True
             end)
    (fst (copy_elements stack h)) (map (@length byte) stack).
Proof.
  revert h. induction stack as [|e rest IH]; intros h; cbn.
  - constructor.
  - run_monad. destruct e as [|b e].
    + specialize (IH h). destruct (copy_elements rest h) as [ps h'].
      cbn in *. constructor; [exact I|exact IH].
    + destruct (malloc h) as [ok h1]. specialize (IH h1).
      destruct (copy_elements rest h1) as [ps h'].
      cbn in *. constructor; [|exact IH].
      destruct ok; [split; [discriminate|reflexivity]|exact I].
Qed.

(** X12.  Every result of [miniscript_satisfy] is well shaped, whatever the
    node, the callbacks, the library and the allocations that fail: the
    two arrays are both null with count 0 or both of [stack_count] entries
    with every non-null element of its recorded size, and a result that
    carries an error message carries no stack.
    [miniscript_satisfaction_result_free] turns any result into one with
    null arrays, count 0 and no message, keeps its availability, and does
    nothing more when called again. *)
Theorem satisfaction_result_well_shaped
  (L : miniscript.Lib) (sscanf_02x : string -> option Z)
  (nd : option (MiniscriptNode L)) (callbacks : option SatisfierCallbacks)
  (nonmalleable : bool) (h : Heap) :
  let r := fst (miniscript_satisfy L sscanf_02x nd callbacks nonmalleable h)
  in
  well_shaped r /\
  (SatisfactionResult.error_message r <> None ->
   SatisfactionResult.stack r = None) /\
  miniscript_satisfaction_result_free (Some r)
  = Some {| SatisfactionResult.availability :=
              SatisfactionResult.availability r;
            SatisfactionResult.stack := None;
            SatisfactionResult.stack_sizes := None;
            SatisfactionResult.stack_count := 0;
            SatisfactionResult.error_message := None |} /\
  miniscript_satisfaction_result_free
    (miniscript_satisfaction_result_free (Some r))
  = miniscript_satisfaction_result_free (Some r).
Proof.
  cbv zeta.
  assert (Hshape :
    well_shaped
      (fst (miniscript_satisfy L sscanf_02x nd callbacks nonmalleable h))).
  { unfold miniscript_satisfy, well_shaped, empty_result.
    destruct nd as [[[n|] c]|];
      try (run_monad; destruct (malloc h); reflexivity).
    destruct callbacks as [cb|];
      [|run_monad; destruct (malloc h); reflexivity].
    destruct (miniscript.Satisfy L n _ nonmalleable)
      as [[avail [|e rest]]|[what|]];
      try (run_monad; destruct (malloc h); reflexivity);
      try reflexivity.
    run_monad.
    destruct (malloc h) as [ok1 h1]. destruct (malloc h1) as [ok2 h2].
    destruct ok1, ok2; cbn [negb orb];
      try (destruct (malloc h2); reflexivity).
    pose proof (copy_elements_sizes (e :: rest) h2) as Hsizes.
    destruct (copy_elements (e :: rest) h2) as [ps h3].
    cbn [fst SatisfactionResult.stack SatisfactionResult.stack_sizes
         SatisfactionResult.stack_count SatisfactionResult.error_message]
      in *.
    pose proof (Forall2_length Hsizes) as Hlen.
    rewrite length_map in Hlen.
    repeat split; try assumption.
    - now rewrite length_map.
    - cbn [length]. lia. }
  split; [exact Hshape|]. split; [|split; reflexivity].
  unfold well_shaped in Hshape.
  destruct (SatisfactionResult.stack _) as [elements|]; [|reflexivity].
  destruct (SatisfactionResult.stack_sizes _) as [sizes|]; [|contradiction].
  destruct Hshape as (_ & _ & _ & Hmsg & _). congruence.
Qed.

(** ** The printed type *)

Lemma letter_then (b : bool) (c : ascii) (s : string) :
  list_ascii_of_string ((if b then String c EmptyString else EmptyString) ++ s)
  = if b then c :: list_ascii_of_string s else list_ascii_of_string s.
Proof. destruct b; reflexivity. Qed.

Lemma last_letter (b : bool) (c : ascii) :
  list_ascii_of_string (if b then String c EmptyString else EmptyString)
  = if b then [c] else [].
Proof. destruct b; reflexivity. Qed.

Lemma type_str_letters (typ : MsType) :
  list_ascii_of_string (type_str typ)
  = filter (fun ch => typ << mst (String ch EmptyString)) type_letters.
Proof.
  unfold type_str. rewrite !letter_then, last_letter.
  reflexivity.
Qed.

Lemma existsb_filter {A : Type} (p f : A -> bool) (l : list A) :
  existsb p (filter f l) = existsb (fun a => p a && f a) l.
Proof.
  induction l as [|a l IH]; [reflexivity|].
  cbn. destruct (f a); cbn; rewrite IH.
  - now rewrite andb_true_r.
  - now rewrite andb_false_r.
Qed.

(** X13.  The string [miniscript_get_type] returns consists of the letters
    of [BVKWzonduefsmxk] whose property the node's type includes, each once
    and in that order; so it contains the letter [k] exactly when
    [miniscript_has_timelock_mix] answers false for the node. *)
Theorem get_type_prints_included_letters
  (L : miniscript.Lib) (nd : option (MiniscriptNode L)) (h : Heap)
  (s : string) :
  fst (miniscript_get_type L nd h) = Some s ->
  exists n c,
    nd = Some (node_of L n c) /\
    list_ascii_of_string s
    = filter (fun ch => miniscript.GetType L n << mst (String ch EmptyString))
        type_letters /\
    miniscript_has_timelock_mix L nd
    = negb (existsb (Ascii.eqb "k") (list_ascii_of_string s)).
Proof.
  unfold miniscript_get_type, miniscript_has_timelock_mix.
  destruct nd as [[[n|] c]|]; try discriminate.
  run_monad. destruct (malloc h) as [[] h']; cbn [fst]; [|discriminate].
  intros [= <-]. exists n, c. split; [reflexivity|].
  rewrite type_str_letters. split; [reflexivity|].
  rewrite existsb_filter. cbn. now rewrite orb_false_r.
Qed.

Lemma get_type_prints_included_letters_witness :
  exists n c,
    Some pk_A = Some (node_of PkLib.lib n c) /\
    list_ascii_of_string "Bonduesmk"
    = filter (fun ch =>
                miniscript.GetType PkLib.lib n << mst (String ch EmptyString))
        type_letters /\
    miniscript_has_timelock_mix PkLib.lib (Some pk_A)
    = negb (existsb (Ascii.eqb "k") (list_ascii_of_string "Bonduesmk")).
Proof.
  apply (get_type_prints_included_letters PkLib.lib (Some pk_A) []
           "Bonduesmk").
  reflexivity.
Defined.

(** ** When the parsers succeed *)




(** ** What a failed accessor has written *)

Lemma fetch_false {A : Type} (L : miniscript.Lib)
  (f : miniscript.Node L -> option A) nd out :
  fst (fetch L f nd out) = false -> snd (fetch L f nd out) = out.
Proof.
  unfold fetch. destruct nd as [[[n|] c]|]; try reflexivity.
  destruct out as [old|]; try reflexivity.
  destruct (f n); [discriminate|reflexivity].
Qed.

(** X15.  An accessor with an output parameter that answers false has
    written nothing through it, with one exception: when
    [miniscript_to_script] fails because the buffer cannot be allocated, it
    has already stored the length of the script through [out_len] and a
    null pointer through [out_script]. *)
Theorem failed_accessors_write_nothing
  (L : miniscript.Lib) (nd : option (MiniscriptNode L)) :
  (forall out,
     fst (miniscript_max_satisfaction_size L nd out) = false ->
     snd (miniscript_max_satisfaction_size L nd out) = out) /\
  (forall out,
     fst (miniscript_get_ops L nd out) = false ->
     snd (miniscript_get_ops L nd out) = out) /\
  (forall out,
     fst (miniscript_get_stack_size L nd out) = false ->
     snd (miniscript_get_stack_size L nd out) = out) /\
  (forall out,
     fst (miniscript_get_exec_stack_size L nd out) = false ->
     snd (miniscript_get_exec_stack_size L nd out) = out) /\
  (forall out,
     fst (miniscript_get_script_size L nd out) = false ->
     snd (miniscript_get_script_size L nd out) = out) /\
  (forall out,
     fst (miniscript_get_static_ops L nd out) = false ->
     snd (miniscript_get_static_ops L nd out) = out) /\
  (forall out_script out_len h,
     fst (miniscript_to_script L nd out_script out_len h)
     = (false, out_script, out_len) \/
     fst (fst (fst (miniscript_to_script L nd out_script out_len h)))
     = true \/
     exists n c script,
       nd = Some (node_of L n c) /\
       miniscript.ToScript L n (StringKeyContext.make c) = Returns script /\
       fst (malloc h) = false /\
       fst (miniscript_to_script L nd out_script out_len h)
       = (false, Some None, Some (length script))).
Proof.
  repeat split; try (intros out; apply fetch_false).
  intros out_script out_len h. unfold miniscript_to_script.
  destruct nd as [[[n|] c]|]; try (left; reflexivity).
  destruct out_script as [old_script|]; try (left; reflexivity).
  destruct out_len as [old_len|]; try (left; reflexivity).
  destruct (miniscript.ToScript L n (StringKeyContext.make c))
    as [script|e] eqn:Hscript; try (left; reflexivity).
  run_monad. destruct (malloc h) as [[] h'] eqn:Hm; cbn.
  - right. left. reflexivity.
  - right. right. exists n, c, script. auto.
Qed.

Lemma failed_accessors_write_nothing_witness :
  snd (miniscript_get_ops PkLib.lib (Some pk_A) None) = None.
Proof.
  apply (failed_accessors_write_nothing PkLib.lib (Some pk_A)).
  reflexivity.
Defined.

(** On the one path where it fails after writing, the output cells no
    longer hold what the caller put there. *)
Example to_script_allocation_failure :
  miniscript_to_script PkLib.lib (Some pk_A) (Some (Some [9])) (Some 1%nat)
    [false]
  = (false, Some None, Some 35%nat, []).
Proof. reflexivity. Qed.

(** ** The public keys of a descriptor *)

Section PubKeySets.

Variable D : descriptors.Lib.
Hypothesis Horder : strict_total_order (descriptors.pubkey_lt D).

Let below (a b : descriptors.CPubKey D) : Prop :=
  descriptors.pubkey_lt D a b = true.

Lemma set_insert_In x s z :
  In z (set_insert D x s) <-> z = x \/ In z s.
Proof.
  destruct Horder as (_ & _ & Htotal).
  induction s as [|y s IH]; cbn.
  - intuition.
  - destruct (descriptors.pubkey_lt D x y) eqn:Hxy; cbn; [intuition|].
    destruct (descriptors.pubkey_lt D y x) eqn:Hyx; cbn.
    + rewrite IH. intuition.
    + pose proof (Htotal x y Hxy Hyx) as ->. intuition.
Qed.

Lemma set_insert_sorted x s :
  StronglySorted below s -> StronglySorted below (set_insert D x s).
Proof.
  destruct Horder as (_ & Htrans & _).
  induction 1 as [|y s Hs IH Hy]; cbn.
  - repeat constructor.
  - destruct (descriptors.pubkey_lt D x y) eqn:Hxy.
    + constructor; [constructor; assumption|].
      constructor; [exact Hxy|].
      apply Forall_forall. intros z Hz.
      apply (Htrans x y z Hxy). exact (proj1 (Forall_forall _ _) Hy z Hz).
    + destruct (descriptors.pubkey_lt D y x) eqn:Hyx.
      * constructor; [exact IH|].
        apply Forall_forall. intros z Hz.
        apply set_insert_In in Hz. destruct Hz as [-> | Hz]; [exact Hyx|].
        exact (proj1 (Forall_forall _ _) Hy z Hz).
      * constructor; assumption.
Qed.

Lemma fold_set_insert_spec keys s :
  StronglySorted below s ->
  StronglySorted below (fold_left (fun s x => set_insert D x s) keys s) /\
  (forall z,
     In z (fold_left (fun s x => set_insert D x s) keys s) <->
     In z keys \/ In z s).
Proof.
  revert s. induction keys as [|k keys IH]; intros s Hs; cbn.
  - split; [exact Hs|]. intuition.
  - destruct (IH (set_insert D k s) (set_insert_sorted k s Hs))
      as [Hsorted Hin].
    split; [exact Hsorted|].
    intros z. rewrite Hin, set_insert_In. intuition.
Qed.

Lemma sorted_NoDup s : StronglySorted below s -> NoDup s.
Proof.
  destruct Horder as (Hirrefl & _ & _).
  induction 1 as [|y s Hs IH Hy]; constructor; [|exact IH].
  intros Hin. pose proof (proj1 (Forall_forall _ _) Hy y Hin) as Hyy.
  unfold below in Hyy. rewrite Hirrefl in Hyy. discriminate.
Qed.

Lemma copy_pubkeys_heap_ok keys h :
  heap_ok h = true ->
  fst (copy_pubkeys D keys h)
  = map (fun k => Some (descriptors.pubkey_bytes D k)) keys /\
  heap_ok (snd (copy_pubkeys D keys h)) = true.
Proof.
  revert h. induction keys as [|k keys IH]; intros h Hok; cbn.
  - auto.
  - run_monad.
    destruct (malloc_heap_ok h Hok) as [Hfst Hsnd].
    destruct (malloc h) as [ok h1]. cbn in Hfst, Hsnd. subst ok.
    specialize (IH h1 Hsnd).
    destruct (copy_pubkeys D keys h1) as [ps h']. cbn in *.
    destruct IH as [-> ?]. auto.
Qed.

(** X16.  When the expansion succeeds and no allocation fails,
    [descriptor_get_pubkeys] returns true and hands out every public key of
    the descriptor and of its expansion exactly once, in ascending order of
    the keys: the count is the number of distinct keys, the two arrays have
    one entry per key, its bytes and their length, and both arrays are
    null when there is no key. *)
Theorem descriptor_get_pubkeys_sorted_distinct
  (d : core.Descriptor (descriptors.base D))
  (prov : core.FlatSigningProvider (descriptors.base D)) (pos : Z)
  (scripts : list (list byte))
  (old_pubkeys : pointer (list (option (list byte))))
  (old_lens : pointer (list nat)) (old_count : nat) (h : Heap) :
  core.Expand (descriptors.base D) d pos prov = Returns (true, scripts) ->
  heap_ok h = true ->
  exists keys,
    fst (descriptor_get_pubkeys D
           (Some (Build_DescriptorNode (descriptors.base D) (Some d) prov))
           pos (Some old_pubkeys) (Some old_lens) (Some old_count) h)
    = (true,
       Some match keys with
            | [] => null_pointer
            | _ :: _ =>
                live (map (fun k => Some (descriptors.pubkey_bytes D k)) keys)
            end,
       Some match keys with
            | [] => null_pointer
            | _ :: _ =>
                live (map (fun k => length (descriptors.pubkey_bytes D k))
                        keys)
            end,
       Some (length keys)) /\
    StronglySorted (fun a b => descriptors.pubkey_lt D a b = true) keys /\
    NoDup keys /\
    (forall k,
       In k keys <->
       In k (descriptors.GetPubKeys D d) \/
       In k (descriptors.expanded_pubkeys D d pos prov)).
Proof.
  intros Hexpand Hok.
  exists (collected_pubkeys D d pos prov).
  destruct (fold_set_insert_spec
              (descriptors.GetPubKeys D d
               ++ descriptors.expanded_pubkeys D d pos prov) []
              (SSorted_nil _)) as [Hsorted Hin].
  fold (collected_pubkeys D d pos prov) in Hsorted, Hin.
  repeat split.
  - unfold descriptor_get_pubkeys. rewrite Hexpand.
    destruct (collected_pubkeys D d pos prov) as [|k keys] eqn:Hkeys;
      [reflexivity|].
    run_monad.
    destruct (malloc_heap_ok h Hok) as [Hfst Hsnd].
    destruct (malloc h) as [ok1 h1]. cbn in Hfst, Hsnd. subst ok1.
    destruct (malloc_heap_ok h1 Hsnd) as [Hfst' Hsnd'].
    destruct (malloc h1) as [ok2 h2]. cbn in Hfst', Hsnd'. subst ok2.
    cbn [negb orb].
    destruct (copy_pubkeys_heap_ok (k :: keys) h2 Hsnd') as [Hcopy _].
    destruct (copy_pubkeys D (k :: keys) h2) as [ps h3]. cbn in Hcopy.
    subst ps. reflexivity.
  - exact Hsorted.
  - apply sorted_NoDup. exact Hsorted.
  - intros Hk. apply Hin in Hk. destruct Hk as [Hk | []].
    apply in_app_iff. exact Hk.
  - intros Hk. apply Hin. left. apply in_app_iff. exact Hk.
Qed.

End PubKeySets.

Lemma Z_ltb_strict_total_order : strict_total_order Z.ltb.
Proof.
  repeat split.
  - intros a. apply Z.ltb_irrefl.
  - intros a b c Hab Hbc. apply Z.ltb_lt in Hab, Hbc. apply Z.ltb_lt. lia.
  - intros a b Hab Hba. apply Z.ltb_ge in Hab, Hba. lia.
Qed.

Lemma descriptor_get_pubkeys_sorted_distinct_witness :
  exists keys,
    fst (descriptor_get_pubkeys ProbeKeys.lib
           (Some (Build_DescriptorNode ProbeCore.lib (Some tt) tt))
           0 (Some null_pointer) (Some null_pointer) (Some 0%nat) [])
    = (true,
       Some match keys with
            | [] => null_pointer
            | _ :: _ => live (map (fun k => Some [k]) keys)
            end,
       Some match keys with
            | [] => null_pointer
            | _ :: _ => live (map (fun k => length [k]) keys)
            end,
       Some (length keys)) /\
    StronglySorted (fun a b => Z.ltb a b = true) keys /\
    NoDup keys /\
    (forall k, In k keys <-> In k [5; 3; 5] \/ In k [4; 3]).
Proof.
  apply (descriptor_get_pubkeys_sorted_distinct ProbeKeys.lib
           Z_ltb_strict_total_order tt tt 0 [ProbeCore.p2wpkh_script]
           null_pointer null_pointer 0%nat []);
    reflexivity.
Defined.

(** With the probe the keys 5, 3, 5, 4, 3 come out as 3, 4, 5. *)
Example descriptor_get_pubkeys_of_probe :
  fst (descriptor_get_pubkeys ProbeKeys.lib
         (Some (Build_DescriptorNode ProbeCore.lib (Some tt) tt))
         0 (Some null_pointer) (Some null_pointer) (Some 0%nat) [])
  = (true, Some (live [Some [3]; Some [4]; Some [5]]),
     Some (live [1; 1; 1]%nat), Some 3%nat).
Proof. reflexivity. Qed.

(** ** Null arguments of the descriptor functions *)

(** X17.  The exported functions of the descriptor wrapper refuse null
    arguments without writing through any output parameter and without
    touching the selected chain parameters: for a null node or a node
    without descriptor the boolean accessors answer false and the others
    return false or null; a null output pointer is refused whatever the
    node; [descriptor_get_checksum] returns null for a null string; and
    [descriptor_parse_with_network] refuses a null string or a null
    [out_node]. *)
Theorem descriptor_null_arguments_are_refused (D : descriptors.Lib) :
  (forall nd : option (DescriptorNode (descriptors.base D)),
     null_descriptor nd = true ->
     descriptor_is_range D nd = false /\
     descriptor_is_solvable D nd = false /\
     (forall h, descriptor_to_string D nd h = (None, h)) /\
     (forall pos out_script out_len h,
        descriptor_expand D nd pos out_script out_len h
        = (false, out_script, out_len, h)) /\
     (forall g pos network h,
        descriptor_get_address (descriptors.base D) g nd pos network h
        = (None, h)) /\
     (forall pos out_pubkeys out_lens out_count h,
        descriptor_get_pubkeys D nd pos out_pubkeys out_lens out_count h
        = (false, out_pubkeys, out_lens, out_count, h)) /\
     (forall out, descriptor_get_script_size D nd out = (false, out)) /\
     (forall use_max_sig out,
        descriptor_get_max_satisfaction_weight D nd use_max_sig out
        = (false, out))) /\
  (forall (nd : option (DescriptorNode (descriptors.base D))) pos h,
     (forall out_len,
        descriptor_expand D nd pos None out_len h
        = (false, None, out_len, h)) /\
     (forall out_script,
        descriptor_expand D nd pos out_script None h
        = (false, out_script, None, h)) /\
     (forall out_pubkeys out_lens out_count,
        out_pubkeys = None \/ out_lens = None \/ out_count = None ->
        descriptor_get_pubkeys D nd pos out_pubkeys out_lens out_count h
        = (false, out_pubkeys, out_lens, out_count, h)) /\
     descriptor_get_script_size D nd None = (false, None) /\
     (forall use_max_sig,
        descriptor_get_max_satisfaction_weight D nd use_max_sig None
        = (false, None))) /\
  (forall h, descriptor_get_checksum D None h = (None, h)) /\
  (forall g descriptor_str network
          (out_node : option (option (DescriptorNode (descriptors.base D))))
          h,
     descriptor_str = None \/ out_node = None ->
     let r := fst (descriptor_parse_with_network (descriptors.base D) g
                     descriptor_str network out_node h) in
     DescriptorResult.success (fst (fst r)) = false /\
     snd (fst r) = out_node /\ snd r = g).
Proof.
  repeat apply conj.
  - intros nd Hnull.
    destruct nd as [[[d|] prov]|]; try discriminate Hnull;
      repeat split; intros; try reflexivity;
      destruct out; reflexivity.
  - intros nd pos h. repeat apply conj.
    + intros out_len. destruct nd as [[[d|] prov]|]; reflexivity.
    + intros out_script.
      destruct nd as [[[d|] prov]|]; destruct out_script; reflexivity.
    + intros out_pubkeys out_lens out_count Hnone.
      destruct nd as [[[d|] prov]|]; try reflexivity.
      destruct out_pubkeys, out_lens, out_count; try reflexivity.
      destruct Hnone as [H | [H | H]]; discriminate H.
    + destruct nd as [[[d|] prov]|]; reflexivity.
    + intros use_max_sig. destruct nd as [[[d|] prov]|]; reflexivity.
  - reflexivity.
  - intros g descriptor_str network out_node h Hnone. cbv zeta.
    unfold descriptor_parse_with_network.
    destruct Hnone as [-> | ->]; [|destruct descriptor_str];
      run_monad; destruct (malloc h); repeat split; reflexivity.
Qed.

Lemma descriptor_null_arguments_are_refused_witness :
  descriptor_is_range ProbeKeys.lib None = false /\
  descriptor_get_script_size ProbeKeys.lib
    (Some (Build_DescriptorNode ProbeCore.lib None tt)) (Some 7)
  = (false, Some 7).
Proof.
  pose proof (descriptor_null_arguments_are_refused ProbeKeys.lib) as H.
  destruct H as [Hnode _].
  split; [apply (Hnode None); reflexivity|].
  apply (Hnode (Some (Build_DescriptorNode ProbeCore.lib None tt))).
  reflexivity.
Defined.

(** ** The script and the address of a descriptor *)

Lemma strdup_safe_some (s : option string) (h : Heap) (r : string) :
  fst (strdup_safe s h) = Some r -> s = Some r.
Proof.
  destruct s as [s|]; unfold strdup_safe, bind, ret; cbn.
  - destruct (malloc h) as [[] h']; cbn; congruence.
  - discriminate.
Qed.

(** X18.  An address [descriptor_get_address] returns is the encoding, under
    the chain parameters selected at the time, of the destination of the
    very script [descriptor_expand] hands out for the same node and
    position: both take the first script of the same expansion. *)
Theorem descriptor_address_is_of_expanded_script
  (D : descriptors.Lib) (g : Globals)
  (nd : option (DescriptorNode (descriptors.base D))) (pos network : Z)
  (h : Heap) (address : string) :
  fst (descriptor_get_address (descriptors.base D) g nd pos network h)
  = Some address ->
  exists script dest,
    fst (descriptor_expand D nd pos (Some None) (Some 0%nat) [])
    = (true, Some (Some script), Some (length script)) /\
    destination_of (descriptors.base D) script = Some dest /\
    core.EncodeDestination (descriptors.base D) (Params g) dest
    = Returns address.
Proof.
  unfold descriptor_get_address, descriptor_expand.
  destruct nd as [[[d|] prov]|]; try discriminate.
  destruct (core.Expand (descriptors.base D) d pos prov)
    as [[[] [|script rest]]|e]; try discriminate.
  destruct (core.GetOutputType (descriptors.base D) d); try discriminate.
  destruct (destination_of (descriptors.base D) script) as [dest|] eqn:Hdest;
    try discriminate.
  destruct (core.EncodeDestination (descriptors.base D) (Params g) dest)
    as [a|e] eqn:Hencode; try discriminate.
  intros Haddress. apply strdup_safe_some in Haddress.
  injection Haddress as <-.
  exists script, dest. auto.
Qed.

Lemma descriptor_address_is_of_expanded_script_witness :
  exists script dest,
    fst (descriptor_expand ProbeKeys.lib (Some ProbeCore.parsed_node) 0
           (Some None) (Some 0%nat) [])
    = (true, Some (Some script), Some (length script)) /\
    destination_of ProbeCore.lib script = Some dest /\
    core.EncodeDestination ProbeCore.lib
      (Params (SelectParams DESCRIPTOR_NETWORK_REGTEST initial_globals)) dest
    = Returns "bcrt1qw508d6qejxtdg4y5r3zarvary0c5xw7kygt080"%string.
Proof.
  apply (descriptor_address_is_of_expanded_script ProbeKeys.lib
           (SelectParams DESCRIPTOR_NETWORK_REGTEST initial_globals)
           (Some ProbeCore.parsed_node) 0 DESCRIPTOR_NETWORK_MAINNET []
           "bcrt1qw508d6qejxtdg4y5r3zarvary0c5xw7kygt080").
  reflexivity.
Defined.

(** X19.  When [descriptor_get_pubkeys] answers false it has written
    nothing through its output parameters, with one exception: when one of
    the two arrays cannot be allocated, it has already stored the number of
    keys through [out_count], and it leaves in [*out_pubkeys] and
    [*out_lens] a null pointer for the array that failed and the address
    of the array it freed for the one that did not. *)
Theorem descriptor_get_pubkeys_failure
  (D : descriptors.Lib) (nd : option (DescriptorNode (descriptors.base D)))
  (pos : Z) (out_pubkeys : option (pointer (list (option (list byte)))))
  (out_lens : option (pointer (list nat))) (out_count : option nat)
  (h : Heap) :
  fst (fst (fst (fst (descriptor_get_pubkeys D nd pos out_pubkeys out_lens
                        out_count h)))) = false ->
  fst (descriptor_get_pubkeys D nd pos out_pubkeys out_lens out_count h)
  = (false, out_pubkeys, out_lens, out_count) \/
  exists d prov keys,
    nd = Some (Build_DescriptorNode (descriptors.base D) (Some d) prov) /\
    collected_pubkeys D d pos prov = keys /\ keys <> [] /\
    (fst (malloc h) = false \/ fst (malloc (snd (malloc h))) = false) /\
    fst (descriptor_get_pubkeys D nd pos out_pubkeys out_lens out_count h)
    = (false,
       Some (if fst (malloc h) then dangling else null_pointer),
       Some (if fst (malloc (snd (malloc h))) then dangling
             else null_pointer),
       Some (length keys)).
Proof.
  unfold descriptor_get_pubkeys.
  destruct nd as [[[d|] prov]|]; try (left; reflexivity).
  destruct out_pubkeys as [old_pubkeys|]; try (left; reflexivity).
  destruct out_lens as [old_lens|]; try (left; reflexivity).
  destruct out_count as [old_count|]; try (left; reflexivity).
  destruct (core.Expand (descriptors.base D) d pos prov)
    as [[[] scripts]|e]; try (left; reflexivity).
  destruct (collected_pubkeys D d pos prov) as [|k keys] eqn:Hkeys;
    [discriminate|].
  run_monad.
  destruct (malloc h) as [ok1 h1]. cbn [fst snd].
  destruct (malloc h1) as [ok2 h2]. cbn [fst snd].
  destruct ok1, ok2; cbn [negb orb].
  - destruct (copy_pubkeys D (k :: keys) h2). cbn. intros H. discriminate H.
  - intros _. right. exists d, prov, (k :: keys).
    repeat split; auto. discriminate.
  - intros _. right. exists d, prov, (k :: keys).
    repeat split; auto. discriminate.
  - intros _. right. exists d, prov, (k :: keys).
    repeat split; auto. discriminate.
Qed.

Lemma descriptor_get_pubkeys_failure_witness :
  fst (descriptor_get_pubkeys ProbeKeys.lib
         (Some ProbeCore.parsed_node) 0
         (Some null_pointer) (Some null_pointer) (Some 0%nat) [true; false])
  = (false, Some null_pointer, Some null_pointer, Some 0%nat) \/
  exists d prov keys,
    Some ProbeCore.parsed_node
    = Some (Build_DescriptorNode ProbeCore.lib (Some d) prov) /\
    collected_pubkeys ProbeKeys.lib d 0 prov = keys /\ keys <> [] /\
    (fst (malloc [true; false]) = false \/
     fst (malloc (snd (malloc [true; false]))) = false) /\
    fst (descriptor_get_pubkeys ProbeKeys.lib
           (Some ProbeCore.parsed_node) 0
           (Some null_pointer) (Some null_pointer) (Some 0%nat)
           [true; false])
    = (false,
       Some (if fst (malloc [true; false]) then dangling else null_pointer),
       Some (if fst (malloc (snd (malloc [true; false]))) then dangling
             else null_pointer),
       Some (length keys)).
Proof.
  apply (descriptor_get_pubkeys_failure ProbeKeys.lib
           (Some ProbeCore.parsed_node) 0
           (Some null_pointer) (Some null_pointer) (Some 0%nat)
           [true; false]).
  reflexivity.
Defined.

(** With the probe and a heap that grants the first array and refuses the
    second, the caller is left with a freed pointer and a count of 3. *)
Example descriptor_get_pubkeys_leaves_freed_pointer :
  fst (descriptor_get_pubkeys ProbeKeys.lib
         (Some ProbeCore.parsed_node) 0
         (Some null_pointer) (Some null_pointer) (Some 0%nat) [true; false])
  = (false, Some dangling, Some null_pointer, Some 3%nat).
Proof. reflexivity. Qed.

(** ** Cleansing memory *)

(** X20.  [memory_cleanse] of [len] bytes that lie within the memory at
    [ptr] sets exactly those bytes to zero: the memory keeps its size and
    every byte after them; a null pointer is left alone. *)
Theorem memory_cleanse_zeroes_prefix (mem : list byte) (len : nat) :
  (len <= length mem)%nat ->
  memory_cleanse (Some mem) len = Some (repeat 0 len ++ skipn len mem) /\
  memory_cleanse None len = None.
Proof.
  intros Hlen. split; [|reflexivity]. unfold memory_cleanse. f_equal.
  revert mem Hlen. induction len as [|len IH]; intros mem Hlen.
  - destruct mem; reflexivity.
  - destruct mem as [|b mem]; [cbn in Hlen; lia|].
    cbn. f_equal. apply IH. cbn in Hlen. lia.
Qed.

Lemma memory_cleanse_zeroes_prefix_witness :
  memory_cleanse (Some [7; 8; 9; 10]) 3
  = Some (repeat 0 3 ++ skipn 3 [7; 8; 9; 10]) /\
  memory_cleanse None 3 = None.
Proof.
  apply (memory_cleanse_zeroes_prefix [7; 8; 9; 10] 3). cbn. lia.
Defined.

(** ** Key paths *)

Lemma string_app_assoc (a b c : string) :
  String.append (String.append a b) c = String.append a (String.append b c).
Proof. induction a as [|x a IH]; cbn; [reflexivity|]. now rewrite IH. Qed.

Lemma string_app_nil_r (a : string) : String.append a EmptyString = a.
Proof. induction a as [|x a IH]; cbn; [reflexivity|]. now rewrite IH. Qed.

(** The loop of [FormatHDKeypath] appends the formatted indices in turn. *)
Lemma FormatHDKeypath_steps
    (path : list Z) (apostrophe : bool) (acc : string) :
  fold_left
    (fun result index => String.append result (format_index apostrophe index))
    path acc
  = String.append acc
      (fold_right
         (fun index rest =>
            String.append (format_index apostrophe index) rest)
         EmptyString path).
Proof.
  revert acc. induction path as [|i path IH]; intros acc; cbn.
  - now rewrite string_app_nil_r.
  - rewrite IH, string_app_assoc. reflexivity.
Qed.

Lemma string_of_uint_digits (d : Decimal.uint) :
  all_digits (NilEmpty.string_of_uint d) = true.
Proof. induction d; cbn; auto. Qed.

Lemma string_of_uint_inj (d d' : Decimal.uint) :
  NilEmpty.string_of_uint d = NilEmpty.string_of_uint d' -> d = d'.
Proof.
  intros H. pose proof (NilEmpty.usu d) as Hd. rewrite H, NilEmpty.usu in Hd.
  congruence.
Qed.

Lemma to_string_inj (a b : Z) :
  0 <= a -> 0 <= b -> to_string a = to_string b -> a = b.
Proof.
  unfold to_string. intros Ha Hb H.
  apply string_of_uint_inj, Unsigned.to_uint_inj in H. lia.
Qed.

Lemma digits_then_rest (s1 s2 t1 t2 : string) :
  all_digits s1 = true -> all_digits s2 = true ->
  no_digit_first t1 -> no_digit_first t2 ->
  String.append s1 t1 = String.append s2 t2 -> s1 = s2 /\ t1 = t2.
Proof.
  revert s2. induction s1 as [|c s1 IH]; intros [|c' s2]; cbn;
    intros H1 H2 Ht1 Ht2 H.
  - auto.
  - subst t1. cbn in Ht1. apply andb_true_iff in H2. destruct H2. congruence.
  - subst t2. cbn in Ht2. apply andb_true_iff in H1. destruct H1. congruence.
  - apply andb_true_iff in H1, H2. destruct H1, H2.
    injection H as -> H. destruct (IH s2) as [-> ->]; auto.
Qed.

Lemma hardened_bit (a : Z) :
  uint32 a -> (Z.land a 0x80000000 =? 0) = (a <? 2 ^ 31).
Proof.
  unfold uint32. intros Ha. change 0x80000000 with (2 ^ 31).
  destruct (Z.ltb_spec a (2 ^ 31)) as [Hlt | Hge].
  - apply Z.eqb_eq. apply Z.bits_inj'. intros n Hn.
    rewrite Z.land_spec, Z.bits_0, Z.pow2_bits_eqb by lia.
    destruct (Z.eqb_spec 31 n) as [<- | Hne]; [|apply andb_false_r].
    rewrite andb_true_r. apply Z.testbit_false; [lia|].
    rewrite Z.div_small by lia. reflexivity.
  - apply Z.eqb_neq. intros H0.
    assert (Hbit : Z.testbit (Z.land a (2 ^ 31)) 31 = true).
    { rewrite Z.land_spec, Z.pow2_bits_true, andb_true_r by lia.
      apply Z.testbit_true; [lia|].
      replace (a / 2 ^ 31) with 1; [reflexivity|].
      apply Z.div_unique with (r := a - 2 ^ 31); lia. }
    rewrite H0, Z.bits_0 in Hbit. discriminate.
Qed.

Lemma unhardened_part (a : Z) : Z.land a 0x7FFFFFFF = a mod 2 ^ 31.
Proof. change 0x7FFFFFFF with (Z.ones 31). apply Z.land_ones. lia. Qed.

(** What [FormatHDKeypath] appends for an index below 2^31. *)
Lemma format_index_plain (apostrophe : bool) (index : Z) (rest : string) :
  uint32 index -> index < 2 ^ 31 ->
  String.append (format_index apostrophe index) rest
  = String "/" (String.append (to_string index) rest).
Proof.
  intros Hi Hlt. unfold format_index. rewrite hardened_bit by exact Hi.
  destruct (Z.ltb_spec index (2 ^ 31)); [reflexivity|lia].
Qed.

(** What it appends for an index with the top bit set. *)
Lemma format_index_hardened (apostrophe : bool) (index : Z) (rest : string) :
  uint32 index -> 2 ^ 31 <= index ->
  String.append (format_index apostrophe index) rest
  = String "/"
      (String.append (to_string (index - 2 ^ 31))
         (String (if apostrophe then "'" else "h")%char rest)).
Proof.
  intros Hi Hge. unfold format_index.
  rewrite hardened_bit, unhardened_part by exact Hi.
  unfold uint32 in Hi.
  replace (index mod 2 ^ 31) with (index - 2 ^ 31)
    by (apply Z.mod_unique with (q := 1); lia).
  destruct (Z.ltb_spec index (2 ^ 31)); [lia|].
  cbn [negb String.append]. f_equal. rewrite string_app_assoc.
  destruct apostrophe; reflexivity.
Qed.

Lemma steps_no_digit_first (apostrophe : bool) (path : list Z) :
  no_digit_first
    (fold_right
       (fun index rest => String.append (format_index apostrophe index) rest)
       EmptyString path).
Proof. destruct path; [exact I|reflexivity]. Qed.

Lemma marker_no_digit_first (apostrophe : bool) (rest : string) :
  no_digit_first (String (if apostrophe then "'" else "h")%char rest).
Proof. destruct apostrophe; reflexivity. Qed.

Lemma String_tail (c : ascii) (s t : string) : String c s = String c t -> s = t.
Proof. congruence. Qed.

Lemma steps_inj (apostrophe : bool) (p q : list Z) :
  Forall uint32 p -> Forall uint32 q ->
  fold_right
    (fun index rest => String.append (format_index apostrophe index) rest)
    EmptyString p
  = fold_right
      (fun index rest => String.append (format_index apostrophe index) rest)
      EmptyString q ->
  p = q.
Proof.
  intros Hp. revert q. induction Hp as [|a p Ha Hp IH]; intros q Hq H.
  - destruct q; [reflexivity|discriminate H].
  - destruct Hq as [|b q Hb Hq]; [discriminate H|].
    cbn [fold_right] in H.
    pose proof (steps_no_digit_first apostrophe p) as Np.
    pose proof (steps_no_digit_first apostrophe q) as Nq.
    pose proof (marker_no_digit_first apostrophe) as Nm.
    pose proof Ha as Ra. pose proof Hb as Rb. unfold uint32 in Ra, Rb.
    destruct (Z.lt_ge_cases a (2 ^ 31)) as [La | La];
      destruct (Z.lt_ge_cases b (2 ^ 31)) as [Lb | Lb];
      rewrite ?(format_index_plain apostrophe a _ Ha La),
        ?(format_index_plain apostrophe b _ Hb Lb),
        ?(format_index_hardened apostrophe a _ Ha La),
        ?(format_index_hardened apostrophe b _ Hb Lb) in H;
      apply String_tail, digits_then_rest in H;
      try apply string_of_uint_digits; try apply Nm; try assumption;
      destruct H as [Hd Ht]; apply to_string_inj in Hd; try lia.
    + subst b. f_equal. apply IH; assumption.
    + exfalso. destruct p; cbn in Ht; destruct apostrophe; discriminate Ht.
    + exfalso. destruct q; cbn in Ht; destruct apostrophe; discriminate Ht.
    + assert (a = b) by lia. subst b. f_equal.
      apply String_tail in Ht. apply IH; assumption.
Qed.

(** X21.  [FormatHDKeypath] is unambiguous: with the same marker for
    hardened indices, two paths of 32-bit indices that are formatted to the
    same text are the same path. *)
Theorem FormatHDKeypath_injective (p q : list Z) (apostrophe : bool) :
  Forall uint32 p -> Forall uint32 q ->
  FormatHDKeypath p apostrophe = FormatHDKeypath q apostrophe -> p = q.
Proof.
  intros Hp Hq H. unfold FormatHDKeypath in H.
  rewrite !FormatHDKeypath_steps in H. apply String_tail in H.
  exact (steps_inj apostrophe p q Hp Hq H).
Qed.

Lemma FormatHDKeypath_injective_witness :
  [0x80000054; 0; 4294967295] = [0x80000054; 0; 4294967295].
Proof.
  apply (FormatHDKeypath_injective
           [0x80000054; 0; 4294967295] [0x80000054; 0; 4294967295] false).
  - repeat constructor; unfold uint32; lia.
  - repeat constructor; unfold uint32; lia.
  - reflexivity.
Defined.

Example FormatHDKeypath_example :
  FormatHDKeypath [0x80000054; 0; 4294967295] false
  = "m/84h/0/2147483647h"%string.
Proof. reflexivity. Qed.
